(** * A verification model of the WhatsApp command bot (bot.js)

    The handlers of bot.js are embedded as Rocq functions: strings are
    sequences of code units (restricted to the range 0..255, one [ascii]
    each), arrays are lists, the awaited library calls are operations of
    a small state-and-exception monad that records every call in a trace,
    and the numbers of the reminder arithmetic are doubles: the integer a
    double holds, rounded to 53 significant bits after every operation,
    with Infinity beyond the largest finite one. *)

From Stdlib Require Import String Ascii List Arith NArith ZArith Bool Lia.
From Stdlib Require Import DecimalString.
Import ListNotations.

Local Open Scope list_scope.
Local Open Scope nat_scope.
Local Open Scope string_scope.

(** ** JavaScript string and array primitives used by the bot *)

Module JS.

Definition chr (n : nat) : string := String (ascii_of_nat n) EmptyString.

(** The characters removed by [trim] and matched by [\s]: TAB, LF, VT,
    FF, CR, SPACE and NBSP are the ones below 256. *)
Definition isWhiteSpace (c : ascii) : bool :=
  let n := N_of_ascii c in
  (((9 <=? n) && (n <=? 13)) || (n =? 32) || (n =? 160))%N.

(** [\d] without the unicode flag is [0-9]. *)
Definition isDigit (c : ascii) : bool :=
  let n := N_of_ascii c in ((48 <=? n) && (n <=? 57))%N.

Fixpoint trimStart (s : string) : string :=
  match s with
  | String c s' => if isWhiteSpace c then trimStart s' else s
  | EmptyString => EmptyString
  end.

Fixpoint trimEnd (s : string) : string :=
  match s with
  | String c s' =>
      match trimEnd s' with
      | EmptyString => if isWhiteSpace c then EmptyString else String c EmptyString
      | t => String c t
      end
  | EmptyString => EmptyString
  end.

(** [String.prototype.trim]. *)
Definition trim (s : string) : string := trimStart (trimEnd s).

(** [String.prototype.toLowerCase] on code units below 256: A-Z and the
    Latin-1 capitals (all of 0xC0..0xDE but the multiplication sign). *)
Definition lowerChar (c : ascii) : ascii :=
  let n := N_of_ascii c in
  if (((65 <=? n) && (n <=? 90)) || ((192 <=? n) && (n <=? 222) && negb (n =? 215)))%N
  then ascii_of_N (n + 32) else c.

Fixpoint toLowerCase (s : string) : string :=
  match s with
  | String c s' => String (lowerChar c) (toLowerCase s')
  | EmptyString => EmptyString
  end.

(** [String.prototype.startsWith]. *)
Definition startsWith (s p : string) : bool := String.prefix p s.

(** [String.prototype.split] with a one-character separator. *)
Fixpoint split (sep : ascii) (s : string) : list string :=
  match s with
  | EmptyString => [EmptyString]
  | String c s' =>
      if Ascii.eqb c sep then EmptyString :: split sep s'
      else match split sep s' with
           | l :: ls => String c l :: ls
           | [] => [String c EmptyString]
           end
  end.

(** [Array.prototype.join]. *)
Fixpoint join (sep : string) (l : list string) : string :=
  match l with
  | [] => EmptyString
  | [x] => x
  | x :: rest => x ++ sep ++ join sep rest
  end.

(** [Array.prototype.slice(a, b)] for non-negative integer bounds. *)
Definition slice {A : Type} (l : list A) (a b : nat) : list A :=
  firstn (b - a) (skipn a l).

(** [Array.prototype.find]. *)
Definition find {A : Type} (f : A -> bool) (l : list A) : option A := List.find f l.

(** [Array.prototype.includes] on an array of strings. *)
Definition includes (l : list string) (x : string) : bool :=
  existsb (String.eqb x) l.

(** Rendering by a template literal of an array length or a loop
    counter, which are integers below 2^32. *)
Definition show (n : nat) : string := NilEmpty.string_of_uint (Nat.to_uint n).

(** *** Numbers

    The numbers that [handleRemind] computes with are doubles whose
    value is a non-negative integer, or Infinity. A finite one is
    modelled by the integer it holds, and Infinity by [2 ^ 1024], the
    first power of two above every finite double. Each operation is
    the exact one followed by the rounding of IEEE 754 (to nearest, ties
    to even). *)
Definition Infinity : N := (2 ^ 1024)%N.

(** An integer rounded to 53 significant bits, ties to even. *)
Definition round53 (p : N) : N :=
  if (p <? 2 ^ 53)%N then p
  else
    let s := (N.log2 p - 52)%N in
    let q := (p / 2 ^ s)%N in
    let r := (p mod 2 ^ s)%N in
    let half := (2 ^ (s - 1))%N in
    if (r <? half)%N then (q * 2 ^ s)%N
    else if (half <? r)%N then ((q + 1) * 2 ^ s)%N
    else if N.even q then (q * 2 ^ s)%N
    else ((q + 1) * 2 ^ s)%N.

(** The double nearest to the integer [p]: what is at or above
    [2^1024 - 2^970] rounds to Infinity. *)
Definition double (p : N) : N := N.min (round53 p) Infinity.

(** [x + y], and [x * c] for a positive integer literal [c]. *)
Definition plus (x y : N) : N := double (x + y).
Definition times (x : N) (c : positive) : N := double (x * Npos c).

(** The decimal digits of an integer. *)
Definition decimal (n : N) : string := NilEmpty.string_of_uint (N.to_uint n).

Fixpoint zeros (n : nat) : string :=
  match n with
  | O => EmptyString
  | S n' => String "0" (zeros n')
  end.

Definition distance (a b : N) : N := if (a <? b)%N then (b - a)%N else (a - b)%N.

(** Number::toString looks for integers [n], [k] and [s] with [k] as
    small as possible, [s] of [k] digits and [s * 10^(n-k)] a decimal
    that reads back as [x]. For an [x] of [d] digits, [n] is [d] or
    [d + 1], and [s] is next to [x / 10^(n-k)]. *)
Definition candidates (x d k : N) : list (N * N) :=
  flat_map
    (fun n =>
       if (n <? k)%N then []
       else
         let p := (10 ^ (n - k))%N in
         filter (fun c : N * N =>
                   let s := fst c in
                   ((10 ^ (k - 1) <=? s) && (s <? 10 ^ k) && (double (s * p) =? x))%N)
                [((x / p)%N, n); ((x / p + 1)%N, n)])
    [d; (d + 1)%N].

(** Of two candidates the one closer to [x] is taken, and the even one
    when they are as close. *)
Definition closer (x k : N) (c1 c2 : N * N) : bool :=
  let v (c : N * N) := (fst c * 10 ^ (snd c - k))%N in
  let d1 := distance (v c1) x in
  let d2 := distance (v c2) x in
  ((d1 <? d2) || ((d1 =? d2) && N.even (fst c1) && negb (N.even (fst c2))))%N.

Definition closest (x k : N) (cs : list (N * N)) : option (N * N) :=
  fold_left (fun best c =>
               match best with
               | None => Some c
               | Some b => if closer x k c b then Some c else Some b
               end) cs None.

Fixpoint shortest (fuel : nat) (x d k : N) : option (N * N * N) :=
  match fuel with
  | O => None
  | S fuel' =>
      match closest x k (candidates x d k) with
      | Some (s, n) => Some (s, k, n)
      | None => shortest fuel' x d (k + 1)%N
      end
  end.

(** Rendering of a number by a template literal (Number::toString):
    every digit of an integer below 2^53; above, the shortest digits
    that read back as the same double (17 always do), followed by
    zeros up to 21 digits and in exponent form from 1e21 on. *)
Definition showN (x : N) : string :=
  if (x =? Infinity)%N then "Infinity"
  else if (x <? 2 ^ 53)%N then decimal x
  else
    match shortest 17 x (N.of_nat (String.length (decimal x))) 1%N with
    | Some (s, k, n) =>
        if (n <=? 21)%N then decimal s ++ zeros (N.to_nat (n - k))
        else
          match decimal s with
          | String c EmptyString => String c "e+" ++ decimal (n - 1)
          | String c rest => String c ("." ++ rest) ++ "e+" ++ decimal (n - 1)
          | EmptyString => EmptyString
          end
    | None => decimal x
    end.

(** The value of the longest prefix of decimal digits. *)
Fixpoint parseDigits (acc : N) (s : string) : N :=
  match s with
  | String c s' =>
      if isDigit c then parseDigits (acc * 10 + (N_of_ascii c - 48))%N s' else acc
  | EmptyString => acc
  end.

(** [parseInt(s, 10)] on a string that starts with decimal digits: the
    double nearest to the value of the longest prefix of digits. *)
Definition parseInt (s : string) : N := double (parseDigits 0%N s).

(** What [Math.random()] returns, a double at least 0 and below 1:
    [mantissa / 2 ^ scale] with a mantissa of at most 53 bits. *)
Record fraction := { mantissa : N; scale : N }.

Definition isFraction (r : fraction) : bool :=
  ((mantissa r <? 2 ^ 53) && (mantissa r <? 2 ^ scale r) && (scale r <=? 1074))%N.

(** [Math.floor(r * n)] for an array length [n]: the product is a
    double, rounded to 53 significant bits, before it is floored. *)
Definition floorOfProduct (r : fraction) (n : N) : N :=
  (round53 (mantissa r * n) / 2 ^ scale r)%N.

(** *** Regular expressions

    The fragment of the regular expression language that the bot's
    three literals use, with the backtracking semantics of the
    JavaScript matcher: quantifiers are greedy and give characters back
    when the rest of the pattern fails. *)

Inductive charclass := Digit | Space.

Definition inClass (k : charclass) (c : ascii) : bool :=
  match k with Digit => isDigit c | Space => isWhiteSpace c end.

Inductive regex :=
| Chr (c : ascii)                 (* a literal character  *)
| Plus (k : charclass)            (* \d+ , \s+            *)
| Star (k : charclass)            (* \d* , \s*            *)
| Opt (r : regex)                 (* r?                   *)
| Grp (i : nat) (r : regex)       (* i-th capturing group *)
| Cat (r1 r2 : regex)             (* r1 r2                *)
| Eps.

(** Capturing groups, most recent binding first. *)
Definition captures := list (nat * string).

Fixpoint capture (i : nat) (caps : captures) : option string :=
  match caps with
  | (j, s) :: rest => if Nat.eqb i j then Some s else capture i rest
  | [] => None
  end.

(** The part of [s] consumed when [rest] is what remains of it. *)
Definition consumed (s rest : string) : string :=
  String.substring 0 (String.length s - String.length rest) s.

Section Matcher.
Context {R : Type}.

(** Greedy iteration of a character class: take one more character
    when possible, and fall back to stopping here when the
    continuation fails further on. *)
Fixpoint star (k : charclass) (s : string) (cont : string -> option R) : option R :=
  match s with
  | String c s' =>
      if inClass k c then
        match star k s' cont with
        | Some r => Some r
        | None => cont s
        end
      else cont s
  | EmptyString => cont s
  end.

Fixpoint exec (r : regex) (s : string) (caps : captures)
         (cont : string -> captures -> option R) : option R :=
  match r with
  | Chr c =>
      match s with
      | String c' s' => if Ascii.eqb c c' then cont s' caps else None
      | EmptyString => None
      end
  | Plus k =>
      match s with
      | String c s' => if inClass k c then star k s' (fun t => cont t caps) else None
      | EmptyString => None
      end
  | Star k => star k s (fun t => cont t caps)
  | Opt r' =>
      match exec r' s caps cont with
      | Some x => Some x
      | None => cont s caps
      end
  | Grp i r' => exec r' s caps (fun t caps' => cont t ((i, consumed s t) :: caps'))
  | Cat r1 r2 => exec r1 s caps (fun t caps' => exec r2 t caps' cont)
  | Eps => cont s caps
  end.
End Matcher.

(** A match anchored at the start of [s]; group 0 is the whole match. *)
Definition matchHere (r : regex) (s : string) : option captures :=
  exec (Grp 0 r) s [] (fun _ caps => Some caps).

(** [String.prototype.match] with a non-global regular expression: the
    groups of the match at the leftmost position that has one, or
    [None] for [null]. *)
Fixpoint match_ (r : regex) (s : string) : option captures :=
  match matchHere r s with
  | Some caps => Some caps
  | None =>
      match s with
      | String _ s' => match_ r s'
      | EmptyString => None
      end
  end.

(** A literal word as a regular expression. *)
Fixpoint lit (w : string) : regex :=
  match w with
  | String c w' => Cat (Chr c) (lit w')
  | EmptyString => Eps
  end.

End JS.


(** ** Data supplied by the messaging library *)

(** [participant.id] of a group participant. *)
Record ContactId := {
  _serialized : string;      (* the machine identifier, e.g. 919876543210@c.us *)
  user : string              (* the user-facing handle *)
}.

Record Participant := {
  id : ContactId;
  isAdmin : bool
}.

Record Contact := {
  pushname : string;
  number : string
}.

Record Chat := {
  isGroup : bool;
  name : string;
  participants : list Participant
}.

(** An incoming message: its own fields, and what its accessors
    [getContact()], [getChat()] and [getMentions()] resolve to when they
    do not fail ([None] is a missing [author], or a null mention list). *)
Record Message := {
  body : string;
  author : option string;
  from : string;
  contact_of : Contact;
  chat_of : Chat;
  mentions_of : option (list Contact)
}.

(** The three configuration constants at the top of bot.js. *)
Record Config := {
  SUPER_ADMINS : list string;
  TAG_BATCH_SIZE : nat;
  TAG_DELAY_MS : nat
}.

Definition bot_config : Config := {|
  SUPER_ADMINS := ["916239232874@c.us"];
  TAG_BATCH_SIZE := 50;
  TAG_DELAY_MS := 1000
|}.

(** ** Effects: calls, traces and the handler monad *)

Definition error := string.

(** What [sendMessage] takes as [mentions]: identifiers (tag-all) or
    contact objects (remind, roast). *)
Inductive mention :=
| MentionId (serialized : string)
| MentionContact (c : Contact).

Inductive call :=
| GetContact                                      (* message.getContact()          *)
| GetChat                                         (* message.getChat()             *)
| GetMentions                                     (* message.getMentions()         *)
| Reply (text : string)                           (* message.reply(text)           *)
| SendMessage (text : string) (mentions : list mention)  (* chat.sendMessage(text, {mentions}) *)
| ReadFileSync (path : string)                    (* fs.readFileSync(path, 'utf8') *)
| ConsoleLog (text : string)                      (* console.log(text)             *)
| ConsoleError (text : string) (err : error)      (* console.error(text, err)      *)
| Sleep (ms : nat)                                (* await sleep(ms)               *)
| SetTimeout (target : Contact) (ms : N).         (* setTimeout(reminder, ms)      *)

(** A call that returned, or a call that raised. *)
Inductive event :=
| Done (c : call)
| Failed (c : call) (e : error).

Definition trace := list event.

(** The world outside the handlers: which library calls raise (as a
    function of what happened before), the content of roasts.txt, and the
    value [Math.random()] returns. *)
Record Env := {
  raises : trace -> call -> option error;
  roasts_txt : string;
  Math_random : JS.fraction
}.

(** How a computation ends: a value, a raised error, or a loop that is
    still running when the fuel is spent. *)
Inductive result (A : Type) :=
| Ok (a : A)
| Throw (e : error)
| Diverge.
Arguments Ok {A} a.
Arguments Throw {A} e.
Arguments Diverge {A}.

Definition M (A : Type) : Type := Env -> trace -> result A * trace.

Definition ret {A : Type} (a : A) : M A := fun _ h => (Ok a, h).

Definition bind {A B : Type} (m : M A) (f : A -> M B) : M B :=
  fun env h =>
    match m env h with
    | (Ok a, h') => f a env h'
    | (Throw e, h') => (Throw e, h')
    | (Diverge, h') => (Diverge, h')
    end.

Declare Scope bot_scope.
Delimit Scope bot_scope with bot.
Notation "x <- m ;; k" := (bind m (fun x => k))
  (at level 100, m at next level, right associativity) : bot_scope.
Notation "m ;; k" := (bind m (fun _ => k))
  (at level 100, right associativity) : bot_scope.
Local Open Scope bot_scope.

(** [try { body } catch (e) { handler e }]: only a raised error is caught. *)
Definition try_catch {A : Type} (body : M A) (handler : error -> M A) : M A :=
  fun env h =>
    match body env h with
    | (Throw e, h') => handler e env h'
    | other => other
    end.

Definition out_of_fuel {A : Type} : M A := fun _ h => (Diverge, h).

(** A library call that may raise; [a] is what it returns otherwise. *)
Definition perform {A : Type} (c : call) (a : A) : M A :=
  fun env h =>
    match raises env h c with
    | None => (Ok a, (h ++ [Done c])%list)
    | Some e => (Throw e, (h ++ [Failed c e])%list)
    end.

(** An effect that cannot raise. *)
Definition emit (c : call) : M unit := fun _ h => (Ok tt, (h ++ [Done c])%list).

Definition getContact (message : Message) : M Contact := perform GetContact (contact_of message).
Definition getChat (message : Message) : M Chat := perform GetChat (chat_of message).
Definition getMentions (message : Message) : M (option (list Contact)) :=
  perform GetMentions (mentions_of message).
Definition reply (message : Message) (text : string) : M unit := perform (Reply text) tt.
Definition sendMessage (chat : Chat) (text : string) (mentions : list mention) : M unit :=
  perform (SendMessage text mentions) tt.
Definition readFileSync (path : string) : M string :=
  fun env => perform (ReadFileSync path) (roasts_txt env) env.
Definition random : M JS.fraction := fun env h => (Ok (Math_random env), h).
Definition console_log (text : string) : M unit := emit (ConsoleLog text).
Definition console_error (text : string) (err : error) : M unit := emit (ConsoleError text err).
Definition sleep (ms : nat) : M unit := emit (Sleep ms).
Definition setTimeout (target : Contact) (ms : N) : M unit := emit (SetTimeout target ms).

(** The double quote, for the log lines that contain one. *)
Definition dq : string := JS.chr 34.
Definition nl : string := JS.chr 10.

(** ** The helpers of bot.js *)

(** [a || b] on strings: the empty string and [undefined] are falsy. *)
Definition or_else (a : option string) (b : string) : string :=
  match a with
  | Some (String c s) => String c s
  | _ => b
  end.

(** [isUserAuthorized(message, chat)]. It awaits nothing and touches
    nothing, so it is a plain function. *)
Definition isUserAuthorized (cfg : Config) (message : Message) (chat : Chat) : bool :=
  let senderId := or_else (author message) (from message) in
  if JS.includes (SUPER_ADMINS cfg) senderId then true
  else
    if isGroup chat then
      let senderParticipant :=
        JS.find (fun p => String.eqb (_serialized (id p)) senderId) (participants chat) in
      match senderParticipant with
      | Some p => if isAdmin p then true else false
      | None => false
      end
    else false.

(** [path.join(__dirname, 'roasts.txt')], relative to the script. *)
Definition roasts_path : string := "roasts.txt".

Definition roast_file_empty : string :=
  "I tried to find a roast, but the roast file is empty. My disappointment is immeasurable.".
Definition roast_file_unreadable : string :=
  "I couldn't find my list of roasts. I guess you're safe... for now.".

(** [roasts[index]]: [None] is [undefined], outside the array. *)
Definition at_index {A : Type} (l : list A) (index : N) : option A :=
  nth_error l (N.to_nat index).

Definition nonBlankLines (content : string) : list string :=
  filter (fun line => negb (String.eqb (JS.trim line) EmptyString))
         (JS.split (ascii_of_nat 10) content).

(** [getRandomRoast()]. *)
Definition getRandomRoast : M (option string) :=
  try_catch
    (content <- readFileSync roasts_path ;;
     let roasts := nonBlankLines content in
     if (length roasts =? 0)%nat then ret (Some roast_file_empty)
     else
       r <- random ;;
       let index := JS.floorOfProduct r (N.of_nat (length roasts)) in
       ret (at_index roasts index))
    (fun error =>
       console_error "[ERROR] Could not read roasts.txt:" error ;;
       ret (Some roast_file_unreadable)).

(** ** [handleTagAll] *)

Definition not_a_group_reply : string :=
  "A novel concept, I know, but this command only functions within a group.".
Definition no_privilege_reply : string :=
  "An admirable attempt, but this feature requires administrative privileges.".
Definition tagall_failure_reply : string :=
  "A critical error was encountered during the tagging process. Please try again later.".

(** The body of the inner [for (const participant of batch)] loop, on
    the two accumulators [text] and [mentions]. *)
Definition tagStep (acc : string * list mention) (participant : Participant)
  : string * list mention :=
  let (text, mentions) := acc in
  (text ++ "@" ++ user (id participant) ++ " ",
   (mentions ++ [MentionId (_serialized (id participant))])%list).

(** [Math.floor(i / b) + 1] and [Math.ceil(n / b)] as the log line prints
    them; a zero divisor gives NaN or Infinity. *)
Definition show_batch_number (i b : nat) : string :=
  if (b =? 0)%nat then (if (i =? 0)%nat then "NaN" else "Infinity")
  else JS.show (i / b + 1).
Definition show_batch_count (n b : nat) : string :=
  if (b =? 0)%nat then (if (n =? 0)%nat then "NaN" else "Infinity")
  else JS.show ((n + b - 1) / b).

(** The outer loop [for (let i = 0; i < participants.length; i += TAG_BATCH_SIZE)],
    entered at index [i]. Each iteration spends one unit of fuel. *)
Fixpoint tagLoop (cfg : Config) (chat : Chat) (participants : list Participant)
         (fuel i : nat) : M unit :=
  if (i <? length participants)%nat then
    match fuel with
    | 0 => out_of_fuel
    | S fuel' =>
        let batch := JS.slice participants i (i + TAG_BATCH_SIZE cfg) in
        let (text, mentions) := fold_left tagStep batch (EmptyString, []) in
        sendMessage chat (JS.trim text) mentions ;;
        console_log ("[INFO] Sent batch " ++ show_batch_number i (TAG_BATCH_SIZE cfg)
                     ++ " of " ++ show_batch_count (length participants) (TAG_BATCH_SIZE cfg)
                     ++ ".") ;;
        sleep (TAG_DELAY_MS cfg) ;;
        tagLoop cfg chat participants fuel' (i + TAG_BATCH_SIZE cfg)
    end
  else ret tt.

(** [handleTagAll(message)], with the constants of the configuration and
    the fuel of its loop made explicit. *)
Definition handleTagAll (cfg : Config) (fuel : nat) (message : Message) : M unit :=
  try_catch
    (contact <- getContact message ;;
     chat <- getChat message ;;
     console_log ("[CMD] Received $tagall! from " ++ dq ++ pushname contact ++ dq
                  ++ " in chat " ++ dq ++ name chat ++ dq ++ ".") ;;
     if negb (isGroup chat) then reply message not_a_group_reply
     else
       let authorized := isUserAuthorized cfg message chat in
       if negb authorized then reply message no_privilege_reply
       else
         let participants := participants chat in
         console_log ("[INFO] Tagging " ++ JS.show (length participants)
                      ++ " participants in batches of " ++ JS.show (TAG_BATCH_SIZE cfg)
                      ++ "...") ;;
         tagLoop cfg chat participants fuel 0 ;;
         console_log ("[SUCCESS] Finished tagging all participants in chat "
                      ++ dq ++ name chat ++ dq ++ "."))
    (fun error =>
       console_error "[ERROR] Failed to handle $tagall! command:" error ;;
       reply message tagall_failure_reply).

(** ** [handleRemind] *)

Definition unitRegex (letter : ascii) (word : string) : JS.regex :=
  JS.Cat (JS.Grp 1 (JS.Plus JS.Digit))
    (JS.Cat (JS.Star JS.Space)
       (JS.Cat (JS.Chr letter)
          (JS.Cat (JS.Opt (JS.Grp 2 (JS.lit word))) (JS.Opt (JS.Chr "s"))))).

(** [/(\d+)\s*h(our)?s?/], [/(\d+)\s*m(inute)?s?/], [/(\d+)\s*s(econd)?s?/]. *)
Definition hoursRegex : JS.regex := unitRegex "h" "our".
Definition minutesRegex : JS.regex := unitRegex "m" "inute".
Definition secondsRegex : JS.regex := unitRegex "s" "econd".

(** [m ? parseInt(m[1], 10) : 0]. Group 1 is a run of digits whenever
    the expression matches, so [parseInt] never yields NaN here. *)
Definition timePart (m : option JS.captures) : N :=
  match m with
  | Some groups =>
      match JS.capture 1 groups with
      | Some digits => JS.parseInt digits
      | None => 0%N
      end
  | None => 0%N
  end.

Definition hoursOf (command : string) : N := timePart (JS.match_ hoursRegex command).
Definition minutesOf (command : string) : N := timePart (JS.match_ minutesRegex command).
Definition secondsOf (command : string) : N := timePart (JS.match_ secondsRegex command).

(** [(hours * 3600) + (minutes * 60) + seconds]. *)
Definition totalSecondsOf (command : string) : N :=
  JS.plus (JS.plus (JS.times (hoursOf command) 3600) (JS.times (minutesOf command) 60))
          (secondsOf command).

Definition time_format_reply : string :=
  "The time format provided is indecipherable. Please use a coherent structure, for instance: 'in 1 hour 30 minutes'.".
Definition remind_failure_reply : string :=
  "An unexpected error prevented the reminder from being set.".

(** The callback handed to [setTimeout]; it runs later, on its own. *)
Definition reminderCallback (chat : Chat) (targetContact : Contact) : M unit :=
  try_catch
    (let reminderText :=
       "Attention @" ++ number targetContact ++ ": This is your scheduled reminder." in
     sendMessage chat reminderText [MentionContact targetContact] ;;
     console_log ("[SUCCESS] Sent reminder to " ++ dq ++ pushname targetContact ++ dq ++ "."))
    (fun err => console_error "[ERROR] Failed to send scheduled reminder:" err).

Definition handleRemind (message : Message) : M unit :=
  try_catch
    (let command := JS.toLowerCase (body message) in
     senderContact <- getContact message ;;
     chat <- getChat message ;;
     console_log ("[CMD] Received $remind from " ++ dq ++ pushname senderContact ++ dq ++ ".") ;;
     let hours := hoursOf command in
     let minutes := minutesOf command in
     let seconds := secondsOf command in
     let totalSeconds :=
       JS.plus (JS.plus (JS.times hours 3600) (JS.times minutes 60)) seconds in
     if (totalSeconds <=? 0)%N then reply message time_format_reply
     else
       mentions <- getMentions message ;;
       let targetContact :=
         match mentions with
         | Some (first :: _) => first
         | _ => senderContact
         end in
       console_log
         match mentions with
         | Some (first :: _) =>
             "[INFO] Reminder target is mentioned user: " ++ dq ++ pushname first ++ dq
         | _ => "[INFO] Reminder target is the message sender."
         end ;;
       let confirmationMessage :=
         "Acknowledged. A reminder has been scheduled for @" ++ number targetContact ++ " in "
         ++ (if (0 <? hours)%N then JS.showN hours ++ " hour(s) " else EmptyString)
         ++ (if (0 <? minutes)%N then JS.showN minutes ++ " minute(s) " else EmptyString)
         ++ (if (0 <? seconds)%N then JS.showN seconds ++ " second(s)" else EmptyString) in
       sendMessage chat (JS.trim confirmationMessage) [MentionContact targetContact] ;;
       setTimeout targetContact (JS.times totalSeconds 1000))
    (fun error =>
       console_error "[ERROR] Failed to handle $remind command:" error ;;
       reply message remind_failure_reply).

(** ** [handleRoast] *)

Definition roast_usage_reply : string :=
  "Whom shall I verbally obliterate? Please specify by tagging them. " ++ nl
  ++ "Usage: $roast @name".
Definition roast_failure_reply : string :=
  "An error occurred during my attempt at humor. How predictably disappointing.".

(** A template literal prints a missing array element as [undefined]. *)
Definition show_string (s : option string) : string :=
  match s with
  | Some text => text
  | None => "undefined"
  end.

Definition handleRoast (message : Message) : M unit :=
  try_catch
    (senderContact <- getContact message ;;
     chat <- getChat message ;;
     console_log ("[CMD] Received $roast from " ++ dq ++ pushname senderContact ++ dq
                  ++ " in chat " ++ dq ++ or_else (Some (name chat)) "private chat" ++ dq ++ ".") ;;
     mentions <- getMentions message ;;
     match mentions with
     | None | Some [] => reply message roast_usage_reply
     | Some (targetContact :: _) =>
         roast <- getRandomRoast ;;
         let roastMessage :=
           "Attention @" ++ number targetContact ++ ", a message for you: "
           ++ show_string roast in
         sendMessage chat roastMessage [MentionContact targetContact] ;;
         console_log ("[SUCCESS] Roasted " ++ dq ++ pushname targetContact ++ dq
                      ++ " in chat " ++ dq ++ name chat ++ dq ++ ".")
     end)
    (fun error =>
       console_error "[ERROR] Failed to handle $roast command:" error ;;
       reply message roast_failure_reply).

(** ** The dispatcher: [client.on('message', ...)] *)

Definition onMessage (cfg : Config) (fuel : nat) (message : Message) : M unit :=
  let command := JS.toLowerCase (JS.trim (body message)) in
  if JS.startsWith command "$tagall!" then handleTagAll cfg fuel message
  else if JS.startsWith command "$remind" then handleRemind message
  else if JS.startsWith command "$roast" then handleRoast message
  else ret tt.

(** ** Vocabulary of the specification *)

(** A handler invocation, observed from an empty history. *)
Definition run {A : Type} (m : M A) (env : Env) : result A * trace := m env [].

(** A library that never raises. *)
Definition reliable (env : Env) : Prop := forall h c, raises env h c = None.

Definition is_done (ev : event) : Prop :=
  match ev with
  | Done _ => True
  | Failed _ _ => False
  end.

Definition call_of (ev : event) : call :=
  match ev with
  | Done c => c
  | Failed c _ => c
  end.

(** An outbound chat message: its text and its mentions metadata. *)
Definition outbound : Type := string * list mention.

(** Every [sendMessage] call that was issued, whether it returned or raised. *)
Definition send_calls (t : trace) : list outbound :=
  flat_map (fun ev =>
              match call_of ev with
              | SendMessage text mentions => [(text, mentions)]
              | _ => []
              end) t.

(** The messages that were delivered: the [sendMessage] calls that returned. *)
Definition sent (t : trace) : list outbound :=
  flat_map (fun ev =>
              match ev with
              | Done (SendMessage text mentions) => [(text, mentions)]
              | _ => []
              end) t.

(** The texts of all the [reply] calls that were issued, and of those that returned. *)
Definition reply_calls (t : trace) : list string :=
  flat_map (fun ev =>
              match call_of ev with
              | Reply text => [text]
              | _ => []
              end) t.

Definition replied (t : trace) : list string :=
  flat_map (fun ev =>
              match ev with
              | Done (Reply text) => [text]
              | _ => []
              end) t.

(** The reminders handed to the timer, with their delay in milliseconds
    (a number of [handleRemind], [JS.Infinity] included). *)
Definition scheduled (t : trace) : list (Contact * N) :=
  flat_map (fun ev =>
              match call_of ev with
              | SetTimeout target ms => [(target, ms)]
              | _ => []
              end) t.

(** The batch sends and the pauses of a trace, everything else left out. *)
Definition is_send_or_sleep (ev : event) : bool :=
  match call_of ev with
  | SendMessage _ _ | Sleep _ => true
  | _ => false
  end.

Definition pacing (t : trace) : trace := filter is_send_or_sleep t.

(** What follows the last [sendMessage] call of a trace (the whole trace
    when there is none). *)
Fixpoint after_last_send (t : trace) : trace :=
  match t with
  | [] => []
  | ev :: rest =>
      match send_calls rest with
      | [] => match call_of ev with
              | SendMessage _ _ => rest
              | _ => ev :: rest
              end
      | _ => after_last_send rest
      end
  end.

(** The batches the loop of [handleTagAll] goes through from index [i]:
    the slices it takes, in the order it takes them. *)
Fixpoint batchesFrom (size : nat) (ps : list Participant) (fuel i : nat)
  : list (list Participant) :=
  if (i <? length ps)%nat then
    match fuel with
    | 0 => []
    | S fuel' => JS.slice ps i (i + size) :: batchesFrom size ps fuel' (i + size)
    end
  else [].

(** The message the loop builds for one batch. *)
Definition batchMessage (batch : list Participant) : outbound :=
  let (text, mentions) := fold_left tagStep batch (EmptyString, []) in
  (JS.trim text, mentions).

(** The messages a tag-all invocation is to send, in order. *)
Definition tagPlan (cfg : Config) (fuel : nat) (message : Message) : list outbound :=
  map batchMessage
      (batchesFrom (TAG_BATCH_SIZE cfg) (participants (chat_of message)) fuel 0).

(** A batch going out, and the pause that follows it. *)
Definition paced (cfg : Config) (m : outbound) : trace :=
  [Done (SendMessage (fst m) (snd m)); Done (Sleep (TAG_DELAY_MS cfg))].

(** The two blocks of [handleTagAll], named for the proofs. *)
Definition tagAllTry (cfg : Config) (fuel : nat) (message : Message) : M unit :=
  contact <- getContact message ;;
  chat <- getChat message ;;
  console_log ("[CMD] Received $tagall! from " ++ dq ++ pushname contact ++ dq
               ++ " in chat " ++ dq ++ name chat ++ dq ++ ".") ;;
  if negb (isGroup chat) then reply message not_a_group_reply
  else
    let authorized := isUserAuthorized cfg message chat in
    if negb authorized then reply message no_privilege_reply
    else
      let participants := participants chat in
      console_log ("[INFO] Tagging " ++ JS.show (length participants)
                   ++ " participants in batches of " ++ JS.show (TAG_BATCH_SIZE cfg)
                   ++ "...") ;;
      tagLoop cfg chat participants fuel 0 ;;
      console_log ("[SUCCESS] Finished tagging all participants in chat "
                   ++ dq ++ name chat ++ dq ++ ".").

Definition tagall_error_log : string := "[ERROR] Failed to handle $tagall! command:".

Definition tagAllCatch (message : Message) (error : error) : M unit :=
  console_error tagall_error_log error ;;
  reply message tagall_failure_reply.

(** The handle token of a participant, and its mention identifier. *)
Definition handleToken (p : Participant) : string := "@" ++ user (id p).
Definition mentionOf (p : Participant) : mention := MentionId (_serialized (id p)).

(** Every token followed by one space: the text before it is trimmed. *)
Fixpoint spacedTokens (batch : list Participant) : string :=
  match batch with
  | [] => EmptyString
  | p :: rest => handleToken p ++ " " ++ spacedTokens rest
  end.

(** [ceil(n / b)] on naturals. *)
Definition ceil_div (n b : nat) : nat := (n + b - 1) / b.

(** The sender of a message, as [isUserAuthorized] computes it. *)
Definition senderOf (message : Message) : string := or_else (author message) (from message).

(** [p] is the first entry of [ps] whose identifier is [sender]. *)
Definition first_with_id (sender : string) (ps : list Participant) (p : Participant) : Prop :=
  exists before after,
    ps = (before ++ p :: after)%list /\
    _serialized (id p) = sender /\
    forall q, In q before -> _serialized (id q) <> sender.

(** The shape of a finished trace: every call returned, or the last
    call raised [e] and every call before it returned. *)
Definition clean (t : trace) : Prop := Forall is_done t.

Definition stopped_by (e : error) (t : trace) : Prop :=
  exists before c, t = (before ++ [Failed c e])%list /\ clean before.

Definition outcome_ok {A : Type} (r : result A) (t : trace) : Prop :=
  match r with
  | Throw e => stopped_by e t
  | _ => clean t
  end.

(** A handler whose [try] block was stopped by a call that raised: the
    error is logged, one apology reply is attempted, and the handler
    returns when that reply returns and raises when it raises. *)
Definition recovered (log apology : string) (r : result unit) (t : trace) : Prop :=
  exists before c e,
    clean before /\
    ((r = Ok tt /\
      t = (before ++ [Failed c e; Done (ConsoleError log e); Done (Reply apology)])%list) \/
     (exists e', r = Throw e' /\
      t = (before ++ [Failed c e; Done (ConsoleError log e); Failed (Reply apology) e'])%list)).

(** The longest prefix of [s] whose characters satisfy [f], and what
    follows it. *)
Fixpoint takeWhile (f : ascii -> bool) (s : string) : string :=
  match s with
  | String c s' => if f c then String c (takeWhile f s') else EmptyString
  | EmptyString => EmptyString
  end.

Fixpoint dropWhile (f : ascii -> bool) (s : string) : string :=
  match s with
  | String c s' => if f c then dropWhile f s' else s
  | EmptyString => EmptyString
  end.

(** A unit phrase at the very start of [s]: a run of digits, any white
    space, then the unit letter. The answer is the run of digits. *)
Definition unitHere (letter : ascii) (s : string) : option string :=
  match s with
  | String c _ =>
      if JS.isDigit c then
        match dropWhile JS.isWhiteSpace (dropWhile JS.isDigit s) with
        | String l _ => if Ascii.eqb letter l then Some (takeWhile JS.isDigit s) else None
        | EmptyString => None
        end
      else None
  | EmptyString => None
  end.

(** The leftmost unit phrase of [s]. *)
Fixpoint firstUnit (letter : ascii) (s : string) : option string :=
  match unitHere letter s with
  | Some digits => Some digits
  | None =>
      match s with
      | String _ s' => firstUnit letter s'
      | EmptyString => None
      end
  end.

(** The number a unit contributes: the value of its phrase, or 0. *)
Definition unitValue (phrase : option string) : N :=
  match phrase with
  | Some digits => JS.parseInt digits
  | None => 0%N
  end.

(** The integer the digits of a phrase spell, before [parseInt] rounds
    it to a double. *)
Definition exactValue (phrase : option string) : N :=
  match phrase with
  | Some digits => JS.parseDigits 0%N digits
  | None => 0%N
  end.

(** Whom a reminder is for: the first mentioned contact, or the sender. *)
Definition reminderTarget (message : Message) : Contact :=
  match mentions_of message with
  | Some (first :: _) => first
  | _ => contact_of message
  end.

(** A letter that can end a unit phrase: neither a digit nor white space. *)
Definition unitLetter (letter : ascii) : Prop :=
  JS.isDigit letter = false /\ JS.isWhiteSpace letter = false.

(** No character of [s] is a digit. *)
Fixpoint digitFree (s : string) : Prop :=
  match s with
  | String c s' => JS.isDigit c = false /\ digitFree s'
  | EmptyString => True
  end.

(** ** Vocabulary for the rest of the handlers *)

Definition remind_error_log : string := "[ERROR] Failed to handle $remind command:".
Definition roast_error_log : string := "[ERROR] Failed to handle $roast command:".
Definition reminder_error_log : string := "[ERROR] Failed to send scheduled reminder:".

(** The text of the deferred reminder. *)
Definition reminderText (targetContact : Contact) : string :=
  "Attention @" ++ number targetContact ++ ": This is your scheduled reminder.".

(** The last character of a text, if it has one. *)
Fixpoint lastChar (s : string) : option ascii :=
  match s with
  | String c s' => match lastChar s' with Some d => Some d | None => Some c end
  | EmptyString => None
  end.

(** The units a confirmation names: those that are not zero, hours
    first, then minutes, then seconds. *)
Definition unitPhrases (hours minutes seconds : N) : list string :=
  ((if (0 <? hours)%N then [(JS.showN hours ++ " hour(s)")%string] else []) ++
   (if (0 <? minutes)%N then [(JS.showN minutes ++ " minute(s)")%string] else []) ++
   (if (0 <? seconds)%N then [(JS.showN seconds ++ " second(s)")%string] else []))%list.

Definition confirmationText (target : Contact) (hours minutes seconds : N) : string :=
  "Acknowledged. A reminder has been scheduled for @" ++ number target ++ " in "
  ++ JS.join " " (unitPhrases hours minutes seconds).

(** What a roast command has done when it calls the selector, every
    call having returned. *)
Definition beforeTheRoast (message : Message) : trace :=
  [Done GetContact; Done GetChat;
   Done (ConsoleLog ("[CMD] Received $roast from " ++ dq ++ pushname (contact_of message) ++ dq
                     ++ " in chat " ++ dq
                     ++ or_else (Some (name (chat_of message))) "private chat" ++ dq ++ "."));
   Done GetMentions].

Definition roastMessage (target : Contact) (roast : string) : string :=
  "Attention @" ++ number target ++ ", a message for you: " ++ roast.

(** The apology of each handler's [catch] block. *)
Definition failure_replies : list string :=
  [tagall_failure_reply; remind_failure_reply; roast_failure_reply].

(** A handler that returns, or raises the error of its own apology reply. *)
Definition raised_by_apology (apology : string) (r : result unit) (t : trace) : Prop :=
  r = Ok tt \/
  exists e before, r = Throw e /\ t = (before ++ [Failed (Reply apology) e])%list.

(** Every character of [s] is white space. *)
Fixpoint blank (s : string) : Prop :=
  match s with
  | String c s' => JS.isWhiteSpace c = true /\ blank s'
  | EmptyString => True
  end.

(** Every character of [s] is a digit. *)
Fixpoint digits (s : string) : Prop :=
  match s with
  | String c s' => JS.isDigit c = true /\ digits s'
  | EmptyString => True
  end.

(** The same message with another text. *)
Definition with_body (message : Message) (text : string) : Message :=
  {| body := text; author := author message; from := from message;
     contact_of := contact_of message; chat_of := chat_of message;
     mentions_of := mentions_of message |}.

(** A text without a line feed. *)
Fixpoint oneLine (s : string) : Prop :=
  match s with
  | String c s' => c <> ascii_of_nat 10 /\ oneLine s'
  | EmptyString => True
  end.

(** A line of a corpus: one line, and not blank. *)
Definition roastLine (s : string) : Prop := oneLine s /\ JS.trim s <> EmptyString.

(** The sends and pauses of a trace respect the rate limit: each
    delivered message is followed by its pause before anything else is
    sent, and only a send that raised may come last, unpaused. *)
Definition rate_limited (cfg : Config) (t : trace) : Prop :=
  exists stop,
    pacing t = (flat_map (paced cfg) (sent t) ++ stop)%list /\
    (stop = [] \/ exists text mentions e, stop = [Failed (SendMessage text mentions) e]).

(** The lines written with [console.log]. *)
Definition logged_lines (t : trace) : list string :=
  flat_map (fun ev =>
              match ev with
              | Done (ConsoleLog text) => [text]
              | _ => []
              end) t.

(** The progress line of the [k]-th batch out of [n]. *)
Definition progressLine (n k : nat) : string :=
  "[INFO] Sent batch " ++ JS.show k ++ " of " ++ JS.show n ++ ".".

(** ** Sample inputs *)

(** The double 0.5. *)
Definition one_half : JS.fraction := {| JS.mantissa := 1; JS.scale := 1 |}.

(** A configuration with another allow-list and other constants. *)
Definition other_config : Config :=
  {| SUPER_ADMINS := ["5@c.us"]; TAG_BATCH_SIZE := 7; TAG_DELAY_MS := 0 |}.


(** A library that works, except that roasts.txt cannot be read. *)
Definition unreadable : Env :=
  {| raises := fun _ c =>
                 match c with
                 | ReadFileSync path =>
                     if String.eqb path roasts_path then Some "ENOENT" else None
                 | _ => None
                 end;
     roasts_txt := EmptyString; Math_random := one_half |}.

Definition someone_else : Contact := {| pushname := "Ravi"; number := "7" |}.


(** The [k]-th member of a sample group; member 0 is its administrator. *)
Definition member (k : nat) : Participant :=
  {| id := {| _serialized := JS.show k ++ "@c.us"; user := JS.show k |};
     isAdmin := (k =? 0)%nat |}.

Definition roster (n : nat) : list Participant := map member (seq 0 n).

Definition someone : Contact := {| pushname := "Asha"; number := "0" |}.

Definition group (n : nat) : Chat :=
  {| isGroup := true; name := "Team"; participants := roster n |}.

Definition private_chat : Chat :=
  {| isGroup := false; name := EmptyString; participants := [] |}.

(** A message with the given text, chat, sender and mentions. *)
Definition incoming (text : string) (chat : Chat) (sender : string)
           (mentioned : list Contact) : Message :=
  {| body := text; author := Some sender; from := "120363@g.us";
     contact_of := someone; chat_of := chat; mentions_of := Some mentioned |}.

(** A library that never raises, and one where the chat cannot be
    resolved and replies are rejected. *)
Definition quiet : Env :=
  {| raises := fun _ _ => None; roasts_txt := EmptyString; Math_random := one_half |}.

Definition broken : Env :=
  {| raises := fun _ c =>
                 match c with
                 | GetChat => Some "chat unavailable"
                 | Reply _ => Some "reply rejected"
                 | _ => None
                 end;
     roasts_txt := EmptyString; Math_random := one_half |}.

(** A library whose roasts.txt has three roasts and a blank line. *)
Definition three_roasts : Env :=
  {| raises := fun _ _ => None;
     roasts_txt := "You are a typo." ++ nl ++ "   " ++ nl ++ "You peaked in beta." ++ nl
                   ++ "Even your cache misses you." ++ nl;
     Math_random := one_half |}.

(** * Properties *)

(** ** The primitives on a few inputs *)

Example trim_both_ends : JS.trim (nl ++ "  tag all  " ++ nl) = "tag all".
Proof. reflexivity. Qed.

Example split_keeps_empty_lines :
  JS.split (ascii_of_nat 10) ("a" ++ nl ++ nl ++ "b" ++ nl) = ["a"; EmptyString; "b"; EmptyString].
Proof. reflexivity. Qed.

Example slice_past_the_end : JS.slice [1; 2; 3; 4; 5] 4 6 = [5].
Proof. reflexivity. Qed.

Example lower_case_command : JS.toLowerCase "$Remind In 2 HOURS" = "$remind in 2 hours".
Proof. reflexivity. Qed.

Example hours_match :
  JS.match_ hoursRegex "remind in 12  hours" = Some [(0, "12  hours"); (2, "our"); (1, "12")].
Proof. reflexivity. Qed.

Example minutes_no_match : JS.match_ minutesRegex "remind in 12 hours" = None.
Proof. reflexivity. Qed.

Example seconds_short_form :
  JS.match_ secondsRegex "remind in 1h 45s" = Some [(0, "45s"); (1, "45")].
Proof. reflexivity. Qed.

Example dispatch_tagall :
  snd (run (onMessage bot_config 3 (incoming "  $TagAll! now" (group 3) "0@c.us" [])) quiet)
  = snd (run (handleTagAll bot_config 3 (incoming "  $TagAll! now" (group 3) "0@c.us" [])) quiet).
Proof. reflexivity. Qed.

(** ** Numbers *)

Example parseInt_rounds : JS.parseInt "9007199254740993" = 9007199254740992%N.
Proof. vm_compute. reflexivity. Qed.

Example times_rounds :
  JS.times (JS.parseInt "9007199254740993") 1000 = 9007199254740992000%N.
Proof. vm_compute. reflexivity. Qed.

Example parseInt_overflows :
  JS.parseInt ("1" ++ JS.zeros 309) = JS.Infinity /\ JS.showN JS.Infinity = "Infinity".
Proof. split; vm_compute; reflexivity. Qed.

(** The product [Math.random() * 7] is rounded before it is floored:
    with [r = (2^54 - 1) / (7 * 2^52)] the exact product is below 4 and
    the double is 4. *)
Example floor_of_rounded_product :
  JS.isFraction {| JS.mantissa := 2573485501354569; JS.scale := 52 |} = true /\
  (2573485501354569 * 7 / 2 ^ 52 = 3)%N /\
  JS.floorOfProduct {| JS.mantissa := 2573485501354569; JS.scale := 52 |} 7 = 4%N.
Proof. repeat split. Qed.

Example show_every_digit : JS.showN 9007199254740991 = "9007199254740991".
Proof. vm_compute. reflexivity. Qed.

Example show_shortest_digits :
  JS.showN (JS.parseInt "18446744073709551616") = "18446744073709552000".
Proof. vm_compute. reflexivity. Qed.

Example show_exponent_form :
  JS.showN (JS.parseInt "1000000000000000000000") = "1e+21" /\
  JS.showN (JS.parseInt "123456789012345678901234567890") = "1.2345678901234568e+29".
Proof. split; vm_compute; reflexivity. Qed.

Lemma round53_small (p : N) : (p < 2 ^ 53)%N -> JS.round53 p = p.
Proof.
  intros Hp. unfold JS.round53. apply N.ltb_lt in Hp. now rewrite Hp.
Qed.

(** Rounding moves an integer by at most half a unit in its last place,
    which is at most [p / 2^53]. *)
Lemma round53_near (p : N) :
  exists e, (e * 2 ^ 53 <= p /\ JS.round53 p <= p + e /\ p <= JS.round53 p + e)%N.
Proof.
  unfold JS.round53. destruct (N.ltb_spec p (2 ^ 53)) as [Hsmall|Hbig].
  - exists 0%N. lia.
  - cbv zeta.
    assert (Hpos : (0 < p)%N) by (apply N.lt_le_trans with (2 ^ 53)%N; [reflexivity | exact Hbig]).
    assert (Hlog : (53 <= N.log2 p)%N).
    { change 53%N with (N.log2 (2 ^ 53)). now apply N.log2_le_mono. }
    destruct (N.log2_spec p Hpos) as [Hlow _].
    set (s := (N.log2 p - 52)%N) in *.
    assert (Hs : s = N.succ (s - 1)) by lia.
    assert (Hunit : (2 ^ s = 2 * 2 ^ (s - 1))%N).
    { rewrite Hs at 1. now rewrite N.pow_succ_r'. }
    assert (Hhalf : (2 ^ (s - 1) * 2 ^ 53 <= p)%N).
    { rewrite <- N.pow_add_r. replace (s - 1 + 53)%N with (N.log2 p) by lia. exact Hlow. }
    assert (Hne : (2 ^ s)%N <> 0%N) by (apply N.pow_nonzero; discriminate).
    pose proof (N.div_mod p (2 ^ s) Hne) as Hdiv.
    pose proof (N.mod_lt p (2 ^ s) Hne) as Hrem.
    rewrite (N.mul_comm (2 ^ s)) in Hdiv.
    exists (2 ^ (s - 1))%N. split; [exact Hhalf|].
    set (q := (p / 2 ^ s)%N) in *. set (r := (p mod 2 ^ s)%N) in *.
    set (e := (2 ^ (s - 1))%N) in *. set (u := (2 ^ s)%N) in *.
    assert (Hup : ((q + 1) * u = q * u + u)%N) by lia.
    destruct (N.ltb_spec r e); [lia|].
    destruct (N.ltb_spec e r); [lia|].
    destruct (N.even q); lia.
Qed.

(** The index [Math.floor(Math.random() * n)] stays inside an array of
    [n] elements. *)
Lemma floorOfProduct_index (r : JS.fraction) (n : N) :
  JS.isFraction r = true -> (0 < n)%N -> (JS.floorOfProduct r n < n)%N.
Proof.
  unfold JS.isFraction, JS.floorOfProduct. intros Hr Hn.
  apply andb_prop in Hr. destruct Hr as [Hr _].
  apply andb_prop in Hr. destruct Hr as [Hbits Hunit].
  apply N.ltb_lt in Hbits, Hunit.
  apply N.Div0.div_lt_upper_bound.
  destruct (round53_near (JS.mantissa r * n)) as (e & He & Hup & _).
  set (m := JS.mantissa r) in *. set (u := (2 ^ JS.scale r)%N) in *.
  assert (He' : (e < n)%N).
  { apply N.mul_lt_mono_pos_r with (p := (2 ^ 53)%N); [reflexivity|].
    apply N.le_lt_trans with (m * n)%N; [exact He|].
    rewrite (N.mul_comm n). now apply N.mul_lt_mono_pos_r. }
  assert (Hnext : ((m + 1) * n <= u * n)%N) by (apply N.mul_le_mono_r; lia).
  lia.
Qed.

Lemma double_small (p : N) : (p < 2 ^ 53)%N -> JS.double p = p.
Proof.
  intros Hp. unfold JS.double. rewrite (round53_small p Hp).
  apply N.min_l. apply N.lt_le_incl, N.lt_trans with (2 ^ 53)%N; [exact Hp|].
  vm_compute. reflexivity.
Qed.

(** For every index [k] of an array of [n] elements there is a double
    that [Math.floor(r * n)] sends to [k]: the one nearest below
    [(2k + 1) / 2n]. *)
Lemma floorOfProduct_reaches (k n : N) :
  (k < n)%N -> (n < 2 ^ 32)%N ->
  let r := {| JS.mantissa := ((2 * k + 1) * 2 ^ 52 / n)%N; JS.scale := 53 |} in
  JS.isFraction r = true /\ JS.floorOfProduct r n = k.
Proof.
  cbv zeta. intros Hk Hn.
  unfold JS.isFraction, JS.floorOfProduct. cbn [JS.mantissa JS.scale].
  assert (Hne : n <> 0%N) by lia.
  pose proof (N.div_mod ((2 * k + 1) * 2 ^ 52) n Hne) as Hdiv.
  pose proof (N.mod_lt ((2 * k + 1) * 2 ^ 52) n Hne) as Hrem.
  set (m := ((2 * k + 1) * 2 ^ 52 / n)%N) in *.
  set (rest := ((2 * k + 1) * 2 ^ 52 mod n)%N) in *.
  rewrite (N.mul_comm n) in Hdiv.
  destruct (round53_near (m * n)) as (e & He & Hup & Hlow).
  assert (Hm : (m < 2 ^ 53)%N).
  { apply N.mul_lt_mono_pos_r with (p := n); [lia|].
    change (2 ^ 53)%N with 9007199254740992%N.
    change (2 ^ 52)%N with 4503599627370496%N in Hdiv. lia. }
  split.
  - apply N.ltb_lt in Hm. rewrite Hm. reflexivity.
  - symmetry. apply N.div_unique with (r := (JS.round53 (m * n) - 2 ^ 53 * k)%N).
    + change (2 ^ 53)%N with 9007199254740992%N in *.
      change (2 ^ 52)%N with 4503599627370496%N in *.
      change (2 ^ 32)%N with 4294967296%N in *. lia.
    + change (2 ^ 53)%N with 9007199254740992%N in *.
      change (2 ^ 52)%N with 4503599627370496%N in *.
      change (2 ^ 32)%N with 4294967296%N in *. lia.
Qed.

(** ** Strings *)

Lemma append_assoc (a b c : string) : (a ++ b) ++ c = a ++ (b ++ c).
Proof. induction a as [|x a IH]; simpl; [reflexivity | now rewrite IH]. Qed.

Lemma append_empty_r (a : string) : a ++ EmptyString = a.
Proof. induction a as [|x a IH]; simpl; [reflexivity | now rewrite IH]. Qed.

Lemma trimEnd_snoc_space (s : string) : JS.trimEnd (s ++ " ") = JS.trimEnd s.
Proof.
  induction s as [|c s IH]; simpl; [reflexivity | now rewrite IH].
Qed.

Lemma trimEnd_head (c : ascii) (s : string) :
  JS.isWhiteSpace c = false -> exists t, JS.trimEnd (String c s) = String c t.
Proof.
  intros Hc. simpl. destruct (JS.trimEnd s) as [|d t].
  - rewrite Hc. now exists EmptyString.
  - now exists (String d t).
Qed.

(** [trim] has nothing to remove in front of a text that starts with [@]. *)
Lemma trim_at_sign (s : string) : JS.trim ("@" ++ s) = JS.trimEnd ("@" ++ s).
Proof.
  unfold JS.trim. change ("@" ++ s) with (String "@" s).
  destruct (trimEnd_head "@" s eq_refl) as [t ->]. reflexivity.
Qed.

(** ** The message of a batch *)

Lemma fold_tagStep (batch : list Participant) (text : string) (mentions : list mention) :
  fold_left tagStep batch (text, mentions) =
  (text ++ spacedTokens batch, (mentions ++ map mentionOf batch)%list).
Proof.
  revert text mentions.
  induction batch as [|p batch IH]; intros text mentions.
  - simpl. now rewrite append_empty_r, app_nil_r.
  - cbn [fold_left spacedTokens map tagStep]. rewrite IH. f_equal.
    + unfold handleToken. now rewrite !append_assoc.
    + now rewrite <- app_assoc.
Qed.

Lemma spacedTokens_join (p : Participant) (batch : list Participant) :
  spacedTokens (p :: batch) = JS.join " " (map handleToken (p :: batch)) ++ " ".
Proof.
  revert p. induction batch as [|q batch IH]; intros p.
  - reflexivity.
  - change (spacedTokens (p :: q :: batch))
      with (handleToken p ++ " " ++ spacedTokens (q :: batch)).
    rewrite IH.
    change (JS.join " " (map handleToken (p :: q :: batch)))
      with (handleToken p ++ " " ++ JS.join " " (map handleToken (q :: batch))).
    now rewrite !append_assoc.
Qed.

(** The text of a batch is its handle tokens joined by single spaces,
    with the trailing white space removed; its metadata is one identifier
    per participant, in order. *)
Lemma batchMessage_spec (batch : list Participant) :
  batchMessage batch =
  (JS.trimEnd (JS.join " " (map handleToken batch)), map mentionOf batch).
Proof.
  unfold batchMessage. rewrite fold_tagStep. simpl. f_equal.
  destruct batch as [|p batch]; [reflexivity|].
  rewrite spacedTokens_join.
  assert (Hat : exists s, JS.join " " (map handleToken (p :: batch)) = "@" ++ s).
  { destruct batch; simpl; eexists; reflexivity. }
  destruct Hat as [s Hs]. rewrite Hs, append_assoc, trim_at_sign.
  now rewrite <- append_assoc, trimEnd_snoc_space.
Qed.

(** ** The batches of the loop *)

Lemma slice_length {A : Type} (l : list A) (a b : nat) :
  length (JS.slice l a b) <= b - a.
Proof. unfold JS.slice. rewrite length_firstn. lia. Qed.

Lemma slice_skipn {A : Type} (l : list A) (a n : nat) :
  (JS.slice l a (a + n) ++ skipn (a + n) l)%list = skipn a l.
Proof.
  unfold JS.slice. replace (a + n - a) with n by lia.
  rewrite Nat.add_comm, <- skipn_skipn. apply firstn_skipn.
Qed.

Lemma batchesFrom_size (size : nat) (ps : list Participant) (fuel i : nat) :
  Forall (fun batch => length batch <= size) (batchesFrom size ps fuel i).
Proof.
  revert i. induction fuel as [|fuel IH]; intros i; simpl;
    destruct (i <? length ps)%nat; constructor.
  - pose proof (slice_length ps i (i + size)). lia.
  - apply IH.
Qed.

Lemma batchesFrom_concat (size : nat) (ps : list Participant) :
  0 < size -> forall fuel i, length ps - i <= fuel ->
  concat (batchesFrom size ps fuel i) = skipn i ps.
Proof.
  intros Hsize. induction fuel as [|fuel IH]; intros i Hfuel; simpl;
    destruct (Nat.ltb_spec i (length ps)) as [Hi|Hi];
    try (symmetry; apply skipn_all2; lia); try lia.
  simpl. rewrite IH by lia. apply slice_skipn.
Qed.

Lemma ceil_div_step (n b : nat) : 0 < b -> 0 < n -> ceil_div n b = S (ceil_div (n - b) b).
Proof.
  intros Hb Hn. unfold ceil_div.
  destruct (Nat.le_gt_cases b n) as [Hle|Hlt].
  - replace (n + b - 1) with ((n - b + b - 1) + 1 * b) by lia.
    rewrite Nat.div_add by lia. lia.
  - replace (n - b) with 0 by lia.
    rewrite (Nat.div_small (0 + b - 1)) by lia.
    replace (n + b - 1) with ((n - 1) + 1 * b) by lia.
    rewrite Nat.div_add by lia. rewrite Nat.div_small by lia. reflexivity.
Qed.

Lemma batchesFrom_count (size : nat) (ps : list Participant) :
  0 < size -> forall fuel i, length ps - i <= fuel ->
  length (batchesFrom size ps fuel i) = ceil_div (length ps - i) size.
Proof.
  intros Hsize. induction fuel as [|fuel IH]; intros i Hfuel; simpl;
    destruct (Nat.ltb_spec i (length ps)) as [Hi|Hi]; try lia;
    try (replace (length ps - i) with 0 by lia; unfold ceil_div;
         symmetry; apply Nat.div_small; lia).
  simpl. rewrite IH by lia.
  rewrite (ceil_div_step (length ps - i) size) by lia.
  do 2 f_equal. lia.
Qed.

(** ** Traces *)

Local Open Scope list_scope.

Lemma send_calls_app (a b : trace) : send_calls (a ++ b) = (send_calls a ++ send_calls b)%list.
Proof. apply flat_map_app. Qed.

Lemma sent_app (a b : trace) : sent (a ++ b) = (sent a ++ sent b)%list.
Proof. apply flat_map_app. Qed.

Lemma reply_calls_app (a b : trace) :
  reply_calls (a ++ b) = (reply_calls a ++ reply_calls b)%list.
Proof. apply flat_map_app. Qed.

Lemma pacing_app (a b : trace) : pacing (a ++ b) = (pacing a ++ pacing b)%list.
Proof. apply filter_app. Qed.

Lemma clean_app (a b : trace) : clean (a ++ b) <-> clean a /\ clean b.
Proof. apply Forall_app. Qed.

(** When nothing raised, the calls issued are the calls delivered. *)
Lemma clean_sent (t : trace) : clean t -> sent t = send_calls t.
Proof.
  induction 1 as [|ev t Hev _ IH]; [reflexivity|].
  change (ev :: t) with ([ev] ++ t). rewrite sent_app, send_calls_app, IH.
  f_equal. destruct ev; [reflexivity | destruct Hev].
Qed.

(** Evaluation of the observations on the explicit part of a trace,
    leaving the texts alone. *)
Ltac observe :=
  cbn [app fst snd send_calls sent reply_calls replied scheduled pacing
       filter flat_map call_of is_send_or_sleep].

Ltac solve_clean :=
  unfold outcome_ok, clean in *;
  repeat first [ apply Forall_nil
               | apply Forall_cons; [exact I|]
               | apply Forall_app; split
               | assumption ].

(** ** The loop of [handleTagAll] *)

Section TagLoop.
Variable cfg : Config.
Variable chat : Chat.
Variable ps : list Participant.

Let size := TAG_BATCH_SIZE cfg.
Let delay := TAG_DELAY_MS cfg.

Lemma tagLoop_done (fuel i : nat) (env : Env) (h : trace) :
  length ps <= i -> tagLoop cfg chat ps fuel i env h = (Ok tt, h).
Proof.
  intros Hi. destruct fuel; simpl;
    destruct (Nat.ltb_spec i (length ps)); try lia; reflexivity.
Qed.

Let logged (i : nat) : event :=
  Done (ConsoleLog ("[INFO] Sent batch " ++ show_batch_number i size ++ " of "
                    ++ show_batch_count (length ps) size ++ ".")%string).

(** One iteration: the send raises and ends the loop, or the batch
    goes out, is logged, and the loop sleeps and goes on. *)
Lemma tagLoop_step (fuel i : nat) (env : Env) (h : trace) :
  i < length ps ->
  let m := batchMessage (JS.slice ps i (i + size)) in
  tagLoop cfg chat ps (S fuel) i env h =
  match raises env h (SendMessage (fst m) (snd m)) with
  | Some e => (Throw e, h ++ [Failed (SendMessage (fst m) (snd m)) e])
  | None =>
      tagLoop cfg chat ps fuel (i + size) env
              (h ++ [Done (SendMessage (fst m) (snd m)); logged i; Done (Sleep delay)])
  end.
Proof.
  intros Hi m. cbn [tagLoop]. fold size.
  destruct (Nat.ltb_spec i (length ps)) as [_|]; [|lia].
  subst m. unfold batchMessage.
  destruct (fold_left tagStep (JS.slice ps i (i + size)) (EmptyString, []))
    as [text mentions].
  cbn [fst snd]. unfold bind, sendMessage, perform, console_log, sleep, emit.
  destruct (raises env h (SendMessage (JS.trim text) mentions)); [reflexivity|].
  rewrite <- !app_assoc. reflexivity.
Qed.

Lemma batchesFrom_step (fuel i : nat) :
  i < length ps ->
  batchesFrom size ps (S fuel) i =
  JS.slice ps i (i + size) :: batchesFrom size ps fuel (i + size).
Proof.
  intros Hi. cbn [batchesFrom].
  destruct (Nat.ltb_spec i (length ps)); [reflexivity | lia].
Qed.

Lemma batchesFrom_done (fuel i : nat) :
  length ps <= i -> batchesFrom size ps fuel i = [].
Proof.
  intros Hi. destruct fuel; cbn [batchesFrom];
    destruct (Nat.ltb_spec i (length ps)); try lia; reflexivity.
Qed.

(** With a library that never raises and enough fuel, the loop sends
    every batch and sleeps after each of them. *)
Lemma tagLoop_reliable (env : Env) :
  reliable env -> 0 < size ->
  forall fuel i h, length ps - i <= fuel ->
  exists t,
    tagLoop cfg chat ps fuel i env h = (Ok tt, h ++ t) /\
    clean t /\
    send_calls t = map batchMessage (batchesFrom size ps fuel i) /\
    pacing t = flat_map (paced cfg) (map batchMessage (batchesFrom size ps fuel i)) /\
    reply_calls t = [].
Proof.
  intros Hrel Hsize. induction fuel as [|fuel IH]; intros i h Hfuel.
  - exists []. rewrite tagLoop_done, batchesFrom_done, app_nil_r by lia.
    repeat split; constructor.
  - destruct (Nat.lt_ge_cases i (length ps)) as [Hi|Hi].
    + rewrite tagLoop_step, batchesFrom_step, Hrel by exact Hi.
      set (m := batchMessage (JS.slice ps i (i + size))).
      destruct (IH (i + size)
                   (h ++ [Done (SendMessage (fst m) (snd m)); logged i; Done (Sleep delay)]))
        as (t & Hrun & Hclean & Hsends & Hpace & Hrep); [lia|].
      exists ([Done (SendMessage (fst m) (snd m)); logged i; Done (Sleep delay)] ++ t).
      rewrite Hrun, send_calls_app, pacing_app, reply_calls_app, Hsends, Hpace, Hrep.
      rewrite <- app_assoc. cbn [map flat_map]. fold m.
      repeat split; try reflexivity.
      * apply clean_app. split; [repeat constructor | exact Hclean].
      * simpl. now destruct m.
    + exists []. rewrite tagLoop_done, batchesFrom_done, app_nil_r by lia.
      repeat split; constructor.
Qed.

Lemma outcome_ok_prepend {A : Type} (r : result A) (a t : trace) :
  clean a -> outcome_ok r t -> outcome_ok r (a ++ t).
Proof.
  intros Ha. destruct r as [x|e|]; simpl; intros Ht;
    try (apply clean_app; now split).
  destruct Ht as (before & c & -> & Hbefore).
  exists (a ++ before), c. rewrite app_assoc. split; [reflexivity|].
  apply clean_app; now split.
Qed.

(** Whatever the library does, the loop issues its sends in the order
    of the batches, each batch at most once, and stops at the first
    call that raises. *)
Lemma tagLoop_any (env : Env) :
  forall fuel i h,
  exists r t k,
    tagLoop cfg chat ps fuel i env h = (r, h ++ t) /\
    outcome_ok r t /\
    send_calls t = firstn k (map batchMessage (batchesFrom size ps fuel i)) /\
    reply_calls t = [].
Proof.
  induction fuel as [|fuel IH]; intros i h.
  - exists (if (i <? length ps)%nat then Diverge else Ok tt), [], 0.
    cbn [tagLoop]. rewrite app_nil_r.
    destruct (i <? length ps)%nat; repeat split; constructor.
  - destruct (Nat.lt_ge_cases i (length ps)) as [Hi|Hi].
    + rewrite tagLoop_step, batchesFrom_step by exact Hi.
      set (m := batchMessage (JS.slice ps i (i + size))).
      destruct (raises env h (SendMessage (fst m) (snd m))) as [e|].
      * exists (Throw e), [Failed (SendMessage (fst m) (snd m)) e], 1.
        split; [reflexivity | split; [|split]].
        -- exists [], (SendMessage (fst m) (snd m)). split; [reflexivity | constructor].
        -- cbn [map firstn]. fold m. simpl. now destruct m.
        -- reflexivity.
      * destruct (IH (i + size)
                     (h ++ [Done (SendMessage (fst m) (snd m)); logged i; Done (Sleep delay)]))
          as (r & t & k & Hrun & Hout & Hsends & Hrep).
        exists r, ([Done (SendMessage (fst m) (snd m)); logged i; Done (Sleep delay)] ++ t),
          (S k).
        rewrite Hrun, send_calls_app, reply_calls_app, Hsends, Hrep, <- app_assoc.
        split; [reflexivity | split; [|split]].
        -- apply outcome_ok_prepend; [repeat constructor | exact Hout].
        -- cbn [map firstn]. fold m. simpl. now destruct m.
        -- reflexivity.
    + exists (Ok tt), [], 0.
      rewrite tagLoop_done, app_nil_r by lia. repeat split; constructor.
Qed.

(** With a positive batch size, a fuel of one unit per participant is
    enough for the loop to end, whatever the library does. *)
Lemma tagLoop_terminates (env : Env) :
  0 < size ->
  forall fuel i h, length ps - i <= fuel ->
  fst (tagLoop cfg chat ps fuel i env h) <> Diverge.
Proof.
  intros Hsize. induction fuel as [|fuel IH]; intros i h Hfuel.
  - rewrite tagLoop_done by lia. discriminate.
  - destruct (Nat.lt_ge_cases i (length ps)) as [Hi|Hi].
    + rewrite tagLoop_step by exact Hi.
      destruct (raises env h _); [discriminate | apply IH; lia].
    + rewrite tagLoop_done by lia. discriminate.
Qed.
End TagLoop.

(** ** [handleTagAll] as a whole *)

Section TagAll.
Variable cfg : Config.
Variable fuel : nat.
Variable message : Message.

Let chat := chat_of message.

(** The normal path: a group chat, an authorized sender, a library
    that never raises. *)
Lemma handleTagAll_reliable (env : Env) :
  reliable env -> 0 < TAG_BATCH_SIZE cfg -> length (participants chat) <= fuel ->
  isGroup chat = true -> isUserAuthorized cfg message chat = true ->
  exists t,
    run (handleTagAll cfg fuel message) env = (Ok tt, t) /\
    clean t /\
    send_calls t = tagPlan cfg fuel message /\
    pacing t = flat_map (paced cfg) (tagPlan cfg fuel message) /\
    reply_calls t = [].
Proof.
  intros Hrel Hsize Hfuel Hgroup Hauth.
  unfold run, handleTagAll, try_catch, bind, getContact, getChat, perform,
    console_log, emit.
  rewrite !Hrel. fold chat. rewrite Hgroup, Hauth. cbn [negb].
  match goal with
  | |- context [tagLoop cfg chat (participants chat) fuel 0 env ?h] =>
      destruct (tagLoop_reliable cfg chat (participants chat) env Hrel Hsize fuel 0 h)
        as (t & Hrun & Hclean & Hsends & Hpace & Hrep); [lia|];
      rewrite Hrun
  end.
  eexists. split; [reflexivity|].
  rewrite !send_calls_app, !pacing_app, !reply_calls_app, Hsends, Hpace, Hrep.
  repeat split; try (simpl; rewrite ?app_nil_r; reflexivity).
  repeat (apply clean_app; split); try exact Hclean; repeat constructor.
Qed.

Lemma handleTagAll_blocks :
  handleTagAll cfg fuel message =
  try_catch (tagAllTry cfg fuel message) (tagAllCatch message).
Proof. reflexivity. Qed.

(** The [try] block, whatever the library does. *)
Lemma tagAllTry_any (env : Env) :
  exists r t k,
    tagAllTry cfg fuel message env [] = (r, t) /\
    outcome_ok r t /\
    send_calls t = firstn k (tagPlan cfg fuel message) /\
    (0 < TAG_BATCH_SIZE cfg -> length (participants chat) <= fuel -> r <> Diverge).
Proof.
  unfold tagAllTry, bind, getContact, getChat, reply, perform, console_log, emit.
  destruct (raises env [] GetContact) as [e|].
  { exists (Throw e), [Failed GetContact e], 0.
    repeat split; try discriminate.
    exists [], GetContact. split; [reflexivity | constructor]. }
  destruct (raises env ([] ++ [Done GetContact]) GetChat) as [e|].
  { exists (Throw e), [Done GetContact; Failed GetChat e], 0.
    repeat split; try discriminate.
    exists [Done GetContact], GetChat. split; [reflexivity | repeat constructor]. }
  fold chat. destruct (isGroup chat); cbn [negb].
  - destruct (isUserAuthorized cfg message chat); cbn [negb].
    + match goal with
      | |- context [tagLoop cfg chat (participants chat) fuel 0 env ?h] =>
          destruct (tagLoop_any cfg chat (participants chat) env fuel 0 h)
            as (r & t & k & Hrun & Hout & Hsends & _);
          pose proof (tagLoop_terminates cfg chat (participants chat) env) as Hterm;
          specialize (fun H => Hterm H fuel 0 h);
          rewrite Hrun in *
      end.
      cbn [fst] in Hterm.
      destruct r as [[]|e|]; eexists _, _, k; (split; [reflexivity|]);
        rewrite ?send_calls_app, Hsends; observe; rewrite ?app_nil_r;
        (split; [|split; [reflexivity|]]); try discriminate.
      * solve_clean.
      * apply (outcome_ok_prepend (Throw e) [_; _; _; _] t); [solve_clean | exact Hout].
      * solve_clean.
      * intros Hsize Hfuel. apply Hterm; [exact Hsize | lia].
    + match goal with
      | |- context [raises env ?h (Reply no_privilege_reply)] =>
          destruct (raises env h (Reply no_privilege_reply)) as [e|]
      end; eexists _, _, 0; (split; [reflexivity|]);
        repeat split; try discriminate; try (repeat constructor).
      eexists _, _. split; [reflexivity | repeat constructor].
  - match goal with
    | |- context [raises env ?h (Reply not_a_group_reply)] =>
        destruct (raises env h (Reply not_a_group_reply)) as [e|]
    end; eexists _, _, 0; (split; [reflexivity|]);
      repeat split; try discriminate; try (repeat constructor).
    eexists _, _. split; [reflexivity | repeat constructor].
Qed.

(** The whole handler, whatever the library does: the sends are an
    initial segment of the plan, and the invocation either ran
    undisturbed or was stopped once and went through the [catch] block. *)
Lemma handleTagAll_any (env : Env) :
  exists r t k,
    run (handleTagAll cfg fuel message) env = (r, t) /\
    send_calls t = firstn k (tagPlan cfg fuel message) /\
    ((clean t /\ forall e, r <> Throw e) \/
     recovered tagall_error_log tagall_failure_reply r t) /\
    (0 < TAG_BATCH_SIZE cfg -> length (participants chat) <= fuel -> r <> Diverge).
Proof.
  rewrite handleTagAll_blocks. unfold run, try_catch.
  destruct (tagAllTry_any env) as (r & t & k & Hrun & Hout & Hsends & Hterm).
  rewrite Hrun. destruct r as [[]|e|].
  - exists (Ok tt), t, k. repeat split; auto. left. split; [exact Hout | discriminate].
  - destruct Hout as (before & c & Ht & Hbefore).
    unfold tagAllCatch, bind, console_error, emit, reply, perform.
    match goal with
    | |- context [raises env ?h (Reply tagall_failure_reply)] =>
        destruct (raises env h (Reply tagall_failure_reply)) as [e'|]
    end; eexists _, _, k; (split; [reflexivity|]);
      rewrite !send_calls_app, Hsends; observe; rewrite ?app_nil_r;
      (split; [reflexivity|]); (split; [|discriminate]); right;
      exists before, c, e; (split; [exact Hbefore|]); rewrite Ht, <- !app_assoc.
    + right. exists e'. split; reflexivity.
    + left. split; reflexivity.
  - exists Diverge, t, k. repeat split; auto. left. split; [exact Hout | discriminate].
Qed.
End TagAll.

(** ** Claims about [handleTagAll] *)

Lemma In_firstn {A : Type} (x : A) (k : nat) (l : list A) : In x (firstn k l) -> In x l.
Proof.
  intros Hx. rewrite <- (firstn_skipn k l). apply in_or_app. now left.
Qed.

Lemma batchesFrom_In (size : nat) (ps batch : list Participant) :
  forall fuel i, In batch (batchesFrom size ps fuel i) ->
  exists j, j < length ps /\ batch = JS.slice ps j (j + size).
Proof.
  induction fuel as [|fuel IH]; intros i; cbn [batchesFrom];
    destruct (Nat.ltb_spec i (length ps)) as [Hi|Hi]; try contradiction.
  intros [<-|Hin]; [now exists i | now apply IH in Hin].
Qed.

Lemma reliable_quiet : reliable quiet.
Proof. intros h c. reflexivity. Qed.

(** C1. With a positive batch size, a tag-all invocation in a group chat
    by an authorized sender (the library raising nothing) returns after
    delivering exactly ceil(N/B) messages, each with at most B mentions,
    and the mention lists put end to end are the identifiers of the
    participant list, in its order. *)
Theorem tagall_delivers_every_batch (cfg : Config) (fuel : nat) (message : Message) (env : Env) :
  let chat := chat_of message in
  let ps := participants chat in
  0 < TAG_BATCH_SIZE cfg ->
  isGroup chat = true ->
  isUserAuthorized cfg message chat = true ->
  reliable env ->
  length ps <= fuel ->
  exists t,
    run (handleTagAll cfg fuel message) env = (Ok tt, t) /\
    length (sent t) = ceil_div (length ps) (TAG_BATCH_SIZE cfg) /\
    Forall (fun m => length (snd m) <= TAG_BATCH_SIZE cfg) (sent t) /\
    concat (map snd (sent t)) = map mentionOf ps.
Proof.
  cbv zeta. intros Hsize Hgroup Hauth Hrel Hfuel.
  destruct (handleTagAll_reliable cfg fuel message env Hrel Hsize Hfuel Hgroup Hauth)
    as (t & Hrun & Hclean & Hsends & _ & _).
  exists t. split; [exact Hrun|].
  rewrite (clean_sent t Hclean), Hsends. unfold tagPlan.
  split; [|split].
  - rewrite length_map, batchesFrom_count by lia. f_equal. lia.
  - apply Forall_map.
    eapply Forall_impl; [|apply batchesFrom_size].
    intros batch Hbatch. rewrite batchMessage_spec. cbn [snd]. now rewrite length_map.
  - rewrite map_map.
    rewrite (map_ext _ (map mentionOf))
      by (intros batch; now rewrite batchMessage_spec).
    rewrite <- concat_map, batchesFrom_concat by lia. reflexivity.
Qed.

Lemma tagall_delivers_every_batch_witness :
  exists t,
    run (handleTagAll bot_config 120 (incoming "$tagall!" (group 120) "0@c.us" [])) quiet
    = (Ok tt, t) /\
    length (sent t) = ceil_div (length (roster 120)) 50 /\
    Forall (fun m => length (snd m) <= 50) (sent t) /\
    concat (map snd (sent t)) = map mentionOf (roster 120).
Proof.
  apply (tagall_delivers_every_batch bot_config 120
           (incoming "$tagall!" (group 120) "0@c.us" []) quiet).
  - cbn. lia.
  - reflexivity.
  - reflexivity.
  - exact reliable_quiet.
  - vm_compute. lia.
Defined.

Lemma send_calls_pacing (t : trace) : send_calls (pacing t) = send_calls t.
Proof.
  induction t as [|ev t IH]; [reflexivity|].
  change (ev :: t) with ([ev] ++ t). rewrite pacing_app, !send_calls_app, IH.
  f_equal. destruct ev as [[]|[]]; reflexivity.
Qed.

Lemma after_last_send_quiet (t : trace) : send_calls t = [] -> after_last_send t = t.
Proof.
  destruct t as [|ev t]; [reflexivity|].
  change (ev :: t) with ([ev] ++ t). rewrite send_calls_app.
  intros H. apply app_eq_nil in H. destruct H as [Hev Ht].
  cbn [after_last_send app]. rewrite Ht.
  destruct ev as [[]|[]]; try reflexivity; discriminate.
Qed.

Lemma pacing_after_last_send (t : trace) :
  pacing (after_last_send t) = after_last_send (pacing t).
Proof.
  induction t as [|ev t IH]; [reflexivity|].
  cbn [after_last_send].
  destruct (send_calls t) as [|m ms] eqn:Hsends.
  - assert (Hq : after_last_send (pacing t) = pacing t)
      by (apply after_last_send_quiet; now rewrite send_calls_pacing).
    destruct ev as [[]|[]]; cbn [call_of pacing filter is_send_or_sleep after_last_send];
      fold (pacing t); rewrite ?send_calls_pacing, ?Hsends; auto.
  - rewrite IH.
    destruct ev as [[]|[]]; cbn [call_of pacing filter is_send_or_sleep after_last_send];
      fold (pacing t); rewrite ?send_calls_pacing, ?Hsends; auto.
Qed.

Lemma after_last_send_paced (cfg : Config) (ms : list outbound) :
  ms <> [] ->
  after_last_send (flat_map (paced cfg) ms) = [Done (Sleep (TAG_DELAY_MS cfg))].
Proof.
  induction ms as [|m ms IH]; [congruence|]. intros _.
  destruct ms as [|m' ms]; [reflexivity|].
  cbn [flat_map paced app after_last_send] in *.
  cbn [send_calls flat_map call_of app] in *.
  apply IH. discriminate.
Qed.

(** C2 (as the code has it). On the normal path the flow sleeps for the
    configured delay after every batch it sends, the final one included:
    sends and pauses alternate, one pause between two consecutive sends
    and one more pause after the last send. *)
Theorem tagall_pauses_after_every_batch
        (cfg : Config) (fuel : nat) (message : Message) (env : Env) :
  let chat := chat_of message in
  0 < TAG_BATCH_SIZE cfg ->
  isGroup chat = true ->
  isUserAuthorized cfg message chat = true ->
  reliable env ->
  length (participants chat) <= fuel ->
  let t := snd (run (handleTagAll cfg fuel message) env) in
  pacing t = flat_map (paced cfg) (sent t) /\
  (sent t <> [] -> pacing (after_last_send t) = [Done (Sleep (TAG_DELAY_MS cfg))]).
Proof.
  cbv zeta. intros Hsize Hgroup Hauth Hrel Hfuel.
  destruct (handleTagAll_reliable cfg fuel message env Hrel Hsize Hfuel Hgroup Hauth)
    as (t & Hrun & Hclean & Hsends & Hpace & _).
  rewrite Hrun. cbn [snd]. rewrite (clean_sent t Hclean), Hsends.
  split; [exact Hpace|].
  intros Hsome. rewrite pacing_after_last_send, Hpace.
  now apply after_last_send_paced.
Qed.

Lemma tagall_pauses_after_every_batch_witness :
  let t := snd (run (handleTagAll bot_config 120
                       (incoming "$tagall!" (group 120) "0@c.us" [])) quiet) in
  pacing t = flat_map (paced bot_config) (sent t) /\
  (sent t <> [] -> pacing (after_last_send t) = [Done (Sleep 1000)]).
Proof.
  apply (tagall_pauses_after_every_batch bot_config 120
           (incoming "$tagall!" (group 120) "0@c.us" []) quiet).
  - cbn. lia.
  - reflexivity.
  - reflexivity.
  - exact reliable_quiet.
  - vm_compute. lia.
Defined.

(** C2, as stated, fails: with the constants of bot.js and 51
    participants there are two batches, and a pause of 1000 ms follows
    the second, last one. *)
Lemma tagall_pause_after_last_batch :
  let t := snd (run (handleTagAll bot_config 51
                       (incoming "$tagall!" (group 51) "0@c.us" [])) quiet) in
  length (sent t) = 2 /\
  pacing (after_last_send t) = [Done (Sleep 1000)].
Proof. vm_compute. split; reflexivity. Qed.

(** Case analysis on the outcome of the next library call. *)
Ltac next_call :=
  match goal with
  | |- context [match raises ?env ?h ?c with _ => _ end] =>
      destruct (raises env h c) as [?e|]
  end.

Ltac unfold_handler :=
  unfold run, try_catch, bind, getContact, getChat, getMentions, reply, sendMessage,
    perform, console_log, console_error, sleep, setTimeout, emit.

(** The refusal a tag-all command meets, by the kind of violation. *)
Lemma refusal_texts_differ : not_a_group_reply <> no_privilege_reply.
Proof. discriminate. Qed.

(** C6. A tag-all command in a chat that is not a group, or from a sender
    the authorization check rejects, issues no [sendMessage] call at all,
    whatever the library does; when the library raises nothing the
    handler returns after exactly one reply, the not-a-group text outside
    a group and the no-privilege text otherwise, and the two differ. *)
Theorem tagall_refusal (cfg : Config) (fuel : nat) (message : Message) (env : Env) :
  let chat := chat_of message in
  isGroup chat = false \/ isUserAuthorized cfg message chat = false ->
  let outcome := run (handleTagAll cfg fuel message) env in
  send_calls (snd outcome) = [] /\
  (reliable env ->
   fst outcome = Ok tt /\
   reply_calls (snd outcome) =
     [if isGroup chat then no_privilege_reply else not_a_group_reply] /\
   replied (snd outcome) = reply_calls (snd outcome)) /\
  not_a_group_reply <> no_privilege_reply.
Proof.
  cbv zeta. intros Hrefused. split; [|split; [|exact refusal_texts_differ]].
  - unfold handleTagAll. unfold_handler.
    destruct (isGroup (chat_of message)) eqn:Hgroup.
    + destruct Hrefused as [Habs|Hauth]; [discriminate|].
      repeat first [ next_call | progress cbv beta iota
                   | rewrite Hgroup | rewrite Hauth | progress cbn [negb] ];
        reflexivity.
    + repeat first [ next_call | progress cbv beta iota
                   | rewrite Hgroup | progress cbn [negb] ];
        reflexivity.
  - intros Hrel. unfold handleTagAll. unfold_handler.
    destruct (isGroup (chat_of message)) eqn:Hgroup.
    + destruct Hrefused as [Habs|Hauth]; [discriminate|].
      repeat first [ rewrite Hrel | progress cbv beta iota
                   | rewrite Hgroup | rewrite Hauth | progress cbn [negb] ].
      repeat split.
    + repeat first [ rewrite Hrel | progress cbv beta iota
                   | rewrite Hgroup | progress cbn [negb] ].
      repeat split.
Qed.

Lemma tagall_refusal_witness :
  let outcome := run (handleTagAll bot_config 3
                        (incoming "$tagall!" (group 3) "2@c.us" [])) quiet in
  send_calls (snd outcome) = [] /\
  (reliable quiet ->
   fst outcome = Ok tt /\
   reply_calls (snd outcome) = [no_privilege_reply] /\
   replied (snd outcome) = reply_calls (snd outcome)) /\
  not_a_group_reply <> no_privilege_reply.
Proof.
  apply (tagall_refusal bot_config 3 (incoming "$tagall!" (group 3) "2@c.us" []) quiet).
  right. reflexivity.
Defined.

(** C7 (as the code has it). Whatever the library does, a tag-all
    invocation issues its sends in the order of the plan, each batch at
    most once; either no call raises and it returns, or the first call
    that raises ends the [try] block, the error is logged and exactly one
    apology reply is attempted, after which nothing more is sent. The
    handler returns when the apology reply returns, and raises the
    error of that reply when it raises. *)
Theorem tagall_failure_handling (cfg : Config) (fuel : nat) (message : Message) (env : Env) :
  0 < TAG_BATCH_SIZE cfg ->
  length (participants (chat_of message)) <= fuel ->
  exists r t k,
    run (handleTagAll cfg fuel message) env = (r, t) /\
    send_calls t = firstn k (tagPlan cfg fuel message) /\
    ((clean t /\ r = Ok tt) \/
     recovered tagall_error_log tagall_failure_reply r t).
Proof.
  intros Hsize Hfuel.
  destruct (handleTagAll_any cfg fuel message env)
    as (r & t & k & Hrun & Hsends & Hshape & Hterm).
  exists r, t, k. split; [exact Hrun | split; [exact Hsends|]].
  destruct Hshape as [[Hclean Hnothrow]|Hrec]; [left | now right].
  split; [exact Hclean|].
  destruct r as [[]|e|]; [reflexivity | now destruct (Hnothrow e) | now destruct Hterm].
Qed.

Lemma tagall_failure_handling_witness :
  exists r t k,
    run (handleTagAll bot_config 3 (incoming "$tagall!" (group 3) "0@c.us" [])) broken
    = (r, t) /\
    send_calls t
    = firstn k (tagPlan bot_config 3 (incoming "$tagall!" (group 3) "0@c.us" [])) /\
    ((clean t /\ r = Ok tt) \/
     recovered tagall_error_log tagall_failure_reply r t).
Proof.
  apply (tagall_failure_handling bot_config 3
           (incoming "$tagall!" (group 3) "0@c.us" []) broken).
  - cbn. lia.
  - vm_compute. lia.
Defined.

(** C7, as stated, fails: when the chat cannot be resolved and the
    apology reply is rejected as well, the handler raises the error of
    that reply. *)
Lemma tagall_raises_when_apology_fails :
  run (handleTagAll bot_config 3 (incoming "$tagall!" (group 3) "0@c.us" [])) broken
  = (Throw "reply rejected",
     [Done GetContact;
      Failed GetChat "chat unavailable";
      Done (ConsoleError tagall_error_log "chat unavailable");
      Failed (Reply tagall_failure_reply) "reply rejected"]).
Proof. reflexivity. Qed.

(** C10. Every [sendMessage] call of a tag-all invocation, whatever the
    library does, carries one slice of the participant list: its
    mentions metadata is the identifier of each participant of the
    slice, in order, and its text is the '@' handle of each of them
    joined by single spaces, with the trailing white space trimmed; so
    there are as many identifiers as handle tokens. *)
Theorem tagall_message_shape (cfg : Config) (fuel : nat) (message : Message) (env : Env)
        (text : string) (mentions : list mention) :
  In (text, mentions) (send_calls (snd (run (handleTagAll cfg fuel message) env))) ->
  exists batch i,
    i < length (participants (chat_of message)) /\
    batch = JS.slice (participants (chat_of message)) i (i + TAG_BATCH_SIZE cfg) /\
    mentions = map mentionOf batch /\
    text = JS.trimEnd (JS.join " " (map handleToken batch)) /\
    length mentions = length (map handleToken batch).
Proof.
  destruct (handleTagAll_any cfg fuel message env)
    as (r & t & k & Hrun & Hsends & _ & _).
  rewrite Hrun. cbn [snd]. rewrite Hsends. intros Hin.
  apply In_firstn in Hin. unfold tagPlan in Hin.
  apply in_map_iff in Hin. destruct Hin as (batch & Hmsg & Hbatch).
  apply batchesFrom_In in Hbatch. destruct Hbatch as (i & Hi & Hslice).
  rewrite batchMessage_spec in Hmsg. injection Hmsg as Htext Hmentions.
  exists batch, i. subst text mentions. rewrite !length_map. auto.
Qed.

Lemma tagall_message_shape_witness :
  exists batch i,
    i < length (roster 3) /\
    batch = JS.slice (roster 3) i (i + 50) /\
    [MentionId "0@c.us"; MentionId "1@c.us"; MentionId "2@c.us"] = map mentionOf batch /\
    "@0 @1 @2" = JS.trimEnd (JS.join " " (map handleToken batch)) /\
    length [MentionId "0@c.us"; MentionId "1@c.us"; MentionId "2@c.us"]
    = length (map handleToken batch).
Proof.
  apply (tagall_message_shape bot_config 3
           (incoming "$tagall!" (group 3) "0@c.us" []) quiet).
  vm_compute. left. reflexivity.
Defined.

(** ** Claims about [isUserAuthorized] *)

Lemma includes_In (l : list string) (x : string) : JS.includes l x = true <-> In x l.
Proof.
  unfold JS.includes. rewrite existsb_exists. split.
  - intros (y & Hy & Heq). apply String.eqb_eq in Heq. now subst.
  - intros Hx. exists x. split; [exact Hx | apply String.eqb_refl].
Qed.

Lemma find_first_with_id (sender : string) (ps : list Participant) (p : Participant) :
  JS.find (fun q => String.eqb (_serialized (id q)) sender) ps = Some p <->
  first_with_id sender ps p.
Proof.
  unfold JS.find. split.
  - induction ps as [|q ps IH]; [discriminate|]. cbn [find].
    destruct (String.eqb_spec (_serialized (id q)) sender) as [Heq|Hne].
    + intros [= ->]. exists [], ps. repeat split; [exact Heq | contradiction].
    + intros Hfind. destruct (IH Hfind) as (before & after & -> & Hid & Hbefore).
      exists (q :: before), after. repeat split; [exact Hid|].
      intros r [<-|Hr]; [exact Hne | now apply Hbefore].
  - intros (before & after & -> & Hid & Hbefore).
    induction before as [|q before IH]; cbn [app find].
    + apply String.eqb_eq in Hid. now rewrite Hid.
    + destruct (String.eqb_spec (_serialized (id q)) sender) as [Heq|Hne].
      * exfalso. apply (Hbefore q); [now left | exact Heq].
      * apply IH. intros r Hr. apply Hbefore. now right.
Qed.

(** With pairwise distinct identifiers, the first entry with an
    identifier is the only one. *)
Lemma first_with_id_unique (sender : string) (ps : list Participant) (p : Participant) :
  NoDup (map (fun q => _serialized (id q)) ps) ->
  In p ps -> _serialized (id p) = sender -> first_with_id sender ps p.
Proof.
  intros Hnodup Hin Hid. apply in_split in Hin. destruct Hin as (before & after & ->).
  exists before, after. repeat split; [exact Hid|].
  intros q Hq Hqid. rewrite map_app in Hnodup. cbn [map] in Hnodup.
  apply NoDup_remove_2 in Hnodup. apply Hnodup. apply in_or_app. left.
  rewrite Hid, <- Hqid. now apply in_map with (f := fun q => _serialized (id q)).
Qed.

Lemma first_with_id_In (sender : string) (ps : list Participant) (p : Participant) :
  first_with_id sender ps p -> In p ps /\ _serialized (id p) = sender.
Proof.
  intros (before & after & -> & Hid & _). split; [|exact Hid].
  apply in_or_app. right. now left.
Qed.

(** Whatever the participant list, the entry that decides is the first
    one with the sender's identifier. *)
Lemma authorized_by_first_entry (cfg : Config) (message : Message) (chat : Chat) :
  ~ In (senderOf message) (SUPER_ADMINS cfg) ->
  (isUserAuthorized cfg message chat = true <->
   isGroup chat = true /\
   exists p, first_with_id (senderOf message) (participants chat) p /\ isAdmin p = true).
Proof.
  intros Hout. unfold isUserAuthorized. fold (senderOf message).
  destruct (JS.includes (SUPER_ADMINS cfg) (senderOf message)) eqn:Hinc;
    [apply includes_In in Hinc; contradiction|].
  destruct (isGroup chat).
  - destruct (JS.find _ (participants chat)) as [p|] eqn:Hfind.
    + apply find_first_with_id in Hfind. split.
      * intros Hadmin. split; [reflexivity|]. exists p. split; [exact Hfind|].
        now destruct (isAdmin p).
      * intros (_ & q & Hq & Hadmin). apply find_first_with_id in Hfind, Hq.
        rewrite Hfind in Hq. injection Hq as <-. now rewrite Hadmin.
    + split; [discriminate|]. intros (_ & q & Hq & _).
      apply find_first_with_id in Hq. rewrite Hfind in Hq. discriminate.
  - split; [discriminate | now intros [? _]].
Qed.

(** C3. The participants of a chat carry pairwise distinct identifiers.
    For every configuration, message and such chat: a sender on the
    allow-list is authorized, whatever the chat; a sender that is not
    on it is authorized exactly when the chat is a group and its
    participant list contains an entry with the sender's identifier
    whose admin flag is set; and a sender that is not on it is not
    authorized in a private chat. *)
Theorem authorization_check (cfg : Config) (message : Message) (chat : Chat) :
  let sender := senderOf message in
  NoDup (map (fun q => _serialized (id q)) (participants chat)) ->
  (In sender (SUPER_ADMINS cfg) -> isUserAuthorized cfg message chat = true) /\
  (~ In sender (SUPER_ADMINS cfg) ->
   (isUserAuthorized cfg message chat = true <->
    isGroup chat = true /\
    exists p, In p (participants chat) /\ _serialized (id p) = sender /\ isAdmin p = true)) /\
  (~ In sender (SUPER_ADMINS cfg) -> isGroup chat = false ->
   isUserAuthorized cfg message chat = false).
Proof.
  cbv zeta. intros Hnodup.
  assert (Hadmin : ~ In (senderOf message) (SUPER_ADMINS cfg) ->
                   (isUserAuthorized cfg message chat = true <->
                    isGroup chat = true /\
                    exists p, In p (participants chat) /\
                              _serialized (id p) = senderOf message /\ isAdmin p = true)).
  { intros Hout. rewrite (authorized_by_first_entry cfg message chat Hout). split.
    - intros (Hgroup & p & Hp & Hadmin). split; [exact Hgroup|]. exists p.
      apply first_with_id_In in Hp. tauto.
    - intros (Hgroup & p & Hin & Hid & Hadmin). split; [exact Hgroup|]. exists p.
      split; [now apply first_with_id_unique | exact Hadmin]. }
  split; [|split; [exact Hadmin|]].
  - intros Hin. unfold isUserAuthorized. fold (senderOf message).
    apply includes_In in Hin. now rewrite Hin.
  - intros Hout Hprivate. apply Bool.not_true_is_false. intros Hauth.
    apply (Hadmin Hout) in Hauth. destruct Hauth as [Hgroup _]. congruence.
Qed.

(** In a group of three whose member 0 is the administrator: member 0
    is authorized, member 2 is not, and the super administrator is,
    member or not. *)
Lemma authorization_check_witness :
  NoDup (map (fun q => _serialized (id q)) (participants (group 3))) /\
  isUserAuthorized bot_config (incoming "$tagall!" (group 3) "0@c.us" []) (group 3) = true /\
  isUserAuthorized bot_config (incoming "$tagall!" (group 3) "2@c.us" []) (group 3) = false /\
  isUserAuthorized bot_config (incoming "$tagall!" (group 3) "916239232874@c.us" [])
                   private_chat = true.
Proof.
  assert (Hdistinct : NoDup (map (fun q => _serialized (id q)) (participants (group 3)))).
  { vm_compute. repeat constructor; cbn; intuition discriminate. }
  assert (Hprivate : NoDup (map (fun q => _serialized (id q)) (participants private_chat))).
  { constructor. }
  split; [exact Hdistinct|]. split; [|split].
  - apply (authorization_check bot_config (incoming "$tagall!" (group 3) "0@c.us" [])
             (group 3) Hdistinct).
    + cbn. intros [Hsame|[]]. discriminate.
    + split; [reflexivity|]. exists (member 0). split; [now left | split; reflexivity].
  - apply Bool.not_true_is_false. intros Hauth.
    apply (authorization_check bot_config (incoming "$tagall!" (group 3) "2@c.us" [])
             (group 3) Hdistinct) in Hauth.
    + destruct Hauth as (_ & p & Hin & Hid & Hadmin).
      cbn in Hin. destruct Hin as [<-|[<-|[<-|[]]]]; discriminate.
    + cbn. intros [Hsame|[]]. discriminate.
  - apply (proj1 (authorization_check bot_config
                    (incoming "$tagall!" (group 3) "916239232874@c.us" []) private_chat
                    Hprivate)).
    vm_compute. left. reflexivity.
Defined.

(** ** Claims about the roast commands *)

Lemma at_index_In {A : Type} (l : list A) (index : N) :
  (index < N.of_nat (length l))%N -> exists x, at_index l index = Some x /\ In x l.
Proof.
  intros Hindex. unfold at_index.
  destruct (nth_error l (N.to_nat index)) as [x|] eqn:Hnth.
  - exists x. split; [reflexivity | eapply nth_error_In; exact Hnth].
  - apply nth_error_None in Hnth. lia.
Qed.

Lemma nonBlankLines_In (content line : string) :
  In line (nonBlankLines content) <->
  In line (JS.split (ascii_of_nat 10) content) /\ JS.trim line <> EmptyString.
Proof.
  unfold nonBlankLines. rewrite filter_In, Bool.negb_true_iff, String.eqb_neq. reflexivity.
Qed.

(** What the selector does for each state of the file: one read and
    nothing else when the file can be read, one read and one line on
    the console when it cannot. *)
Lemma getRandomRoast_outcome (env : Env) (h : trace) :
  JS.isFraction (Math_random env) = true ->
  exists roast,
    match raises env h (ReadFileSync roasts_path) with
    | Some e =>
        getRandomRoast env h
        = (Ok (Some roast),
           h ++ [Failed (ReadFileSync roasts_path) e;
                 Done (ConsoleError "[ERROR] Could not read roasts.txt:" e)]) /\
        roast = roast_file_unreadable
    | None =>
        getRandomRoast env h = (Ok (Some roast), h ++ [Done (ReadFileSync roasts_path)]) /\
        (roast = roast_file_empty /\
         (forall line, In line (JS.split (ascii_of_nat 10) (roasts_txt env)) ->
                       JS.trim line = EmptyString) \/
         In roast (JS.split (ascii_of_nat 10) (roasts_txt env)) /\
         JS.trim roast <> EmptyString)
    end.
Proof.
  intros Hrandom.
  unfold getRandomRoast, try_catch, bind, readFileSync, perform, console_error, emit,
    random, ret.
  destruct (raises env h (ReadFileSync roasts_path)) as [e|].
  - exists roast_file_unreadable. rewrite <- app_assoc. split; reflexivity.
  - destruct (nonBlankLines (roasts_txt env)) as [|first lines] eqn:Hlines.
    + exists roast_file_empty. cbn [length Nat.eqb]. split; [reflexivity|]. left.
      split; [reflexivity|]. intros line Hline.
      destruct (string_dec (JS.trim line) EmptyString) as [Hblank|Hfull]; [exact Hblank|].
      assert (Hin : In line (nonBlankLines (roasts_txt env))) by now apply nonBlankLines_In.
      rewrite Hlines in Hin. contradiction.
    + cbn [length Nat.eqb].
      destruct (at_index_In (first :: lines)
                  (JS.floorOfProduct (Math_random env) (N.of_nat (length (first :: lines)))))
        as (roast & Hroast & Hin).
      { apply floorOfProduct_index; [exact Hrandom | cbn [length]; lia]. }
      exists roast. cbn [length] in Hroast. rewrite Hroast. split; [reflexivity|]. right.
      rewrite <- Hlines in Hin. now apply nonBlankLines_In.
Qed.

(** C8. The roast selector always returns a string and never raises,
    whatever happened before and whatever roasts.txt holds: the
    unreadable-file text when reading the file raises; the empty-file
    text when every line of the file is blank; and otherwise a line of
    the file that is not blank. [Math.random()] is a double at least 0
    and below 1. *)
Theorem roast_selector_total (env : Env) (h : trace) :
  JS.isFraction (Math_random env) = true ->
  let lines := JS.split (ascii_of_nat 10) (roasts_txt env) in
  exists roast t,
    getRandomRoast env h = (Ok (Some roast), h ++ t) /\
    match raises env h (ReadFileSync roasts_path) with
    | Some e => roast = roast_file_unreadable
    | None =>
        ((forall line, In line lines -> JS.trim line = EmptyString) ->
         roast = roast_file_empty) /\
        ((exists line, In line lines /\ JS.trim line <> EmptyString) ->
         In roast lines /\ JS.trim roast <> EmptyString)
    end.
Proof.
  cbv zeta. intros Hrandom.
  destruct (getRandomRoast_outcome env h Hrandom) as (roast & Houtcome).
  exists roast.
  destruct (raises env h (ReadFileSync roasts_path)) as [e|].
  - destruct Houtcome as (-> & ->). eexists. split; reflexivity.
  - destruct Houtcome as (-> & Hchoice). eexists. split; [reflexivity|].
    destruct Hchoice as [[-> Hblank]|[Hin Hfull]].
    + split; [reflexivity|]. intros (line & Hline & Hline'). now apply Hblank in Hline.
    + split; [|intros _; now split]. intros Hblank. now apply Hblank in Hin.
Qed.

(** On a file of three roasts and a blank line the answer is one of the
    three roasts. *)
Lemma roast_selector_total_witness :
  exists roast t,
    getRandomRoast three_roasts [] = (Ok (Some roast), [] ++ t) /\
    In roast ["You are a typo."; "You peaked in beta."; "Even your cache misses you."].
Proof.
  destruct (roast_selector_total three_roasts [] eq_refl) as (roast & t & Hrun & Hcases).
  exists roast, t. split; [exact Hrun|].
  assert (Hline : In roast (JS.split (ascii_of_nat 10) (roasts_txt three_roasts)) /\
                  JS.trim roast <> EmptyString).
  { apply (proj2 Hcases). exists "You are a typo.".
    split; [left; reflexivity | vm_compute; discriminate]. }
  destruct Hline as [Hin Hfull].
  change (JS.split (ascii_of_nat 10) (roasts_txt three_roasts))
    with ["You are a typo."; "   "; "You peaked in beta."; "Even your cache misses you.";
          EmptyString] in Hin.
  destruct Hin as [<-|[<-|[<-|[<-|[<-|[]]]]]].
  - left. reflexivity.
  - exfalso. apply Hfull. reflexivity.
  - right. left. reflexivity.
  - right. right. left. reflexivity.
  - exfalso. apply Hfull. reflexivity.
Defined.

(** C9. A roast command that mentions nobody issues no [sendMessage]
    call, whatever the library does; when the library raises nothing the
    handler returns after exactly one reply, the usage instruction. *)
Theorem roast_without_mention (message : Message) (env : Env) :
  mentions_of message = None \/ mentions_of message = Some [] ->
  let outcome := run (handleRoast message) env in
  send_calls (snd outcome) = [] /\
  (reliable env ->
   fst outcome = Ok tt /\
   reply_calls (snd outcome) = [roast_usage_reply] /\
   replied (snd outcome) = [roast_usage_reply]).
Proof.
  cbv zeta. intros Hnone. split.
  - unfold handleRoast. unfold_handler.
    destruct Hnone as [Hnone|Hnone];
      repeat first [ next_call | progress cbv beta iota | rewrite Hnone ];
      reflexivity.
  - intros Hrel. unfold handleRoast. unfold_handler.
    destruct Hnone as [Hnone|Hnone];
      repeat first [ rewrite Hrel | progress cbv beta iota | rewrite Hnone ];
      repeat split.
Qed.

Lemma roast_without_mention_witness :
  let outcome := run (handleRoast (incoming "$roast" (group 3) "2@c.us" [])) quiet in
  send_calls (snd outcome) = [] /\
  (reliable quiet ->
   fst outcome = Ok tt /\
   reply_calls (snd outcome) = [roast_usage_reply] /\
   replied (snd outcome) = [roast_usage_reply]).
Proof.
  apply (roast_without_mention (incoming "$roast" (group 3) "2@c.us" []) quiet).
  right. reflexivity.
Defined.

(** ** The regular expressions of [handleRemind] *)

Local Open Scope string_scope.

Lemma digit_not_space (c : ascii) : JS.isDigit c = true -> JS.isWhiteSpace c = false.
Proof.
  unfold JS.isDigit, JS.isWhiteSpace. cbv zeta.
  destruct (N.leb_spec 48 (N_of_ascii c)); [|discriminate].
  destruct (N.leb_spec (N_of_ascii c) 57); [|discriminate]. intros _.
  destruct (N.leb_spec 9 (N_of_ascii c)); destruct (N.leb_spec (N_of_ascii c) 13);
    destruct (N.eqb_spec (N_of_ascii c) 32); destruct (N.eqb_spec (N_of_ascii c) 160);
    try reflexivity; lia.
Qed.

Lemma take_drop (f : ascii -> bool) (s : string) : takeWhile f s ++ dropWhile f s = s.
Proof.
  induction s as [|c s IH]; [reflexivity|]. cbn [takeWhile dropWhile].
  destruct (f c); [cbn; now rewrite IH | reflexivity].
Qed.

Lemma length_append (a b : string) :
  String.length (a ++ b) = String.length a + String.length b.
Proof. induction a as [|c a IH]; cbn; [reflexivity | now rewrite IH]. Qed.

Lemma substring_prefix (a b : string) : String.substring 0 (String.length a) (a ++ b) = a.
Proof. induction a as [|c a IH]; cbn; [now destruct b | now rewrite IH]. Qed.

(** What a group captures when [rest] is left of [s]. *)
Lemma consumed_takeWhile (f : ascii -> bool) (s : string) :
  JS.consumed s (dropWhile f s) = takeWhile f s.
Proof.
  unfold JS.consumed. rewrite <- (take_drop f s) at 1 3.
  rewrite length_append, Nat.add_sub. apply substring_prefix.
Qed.

Section Greedy.
Context {R : Type}.

(** A greedy class iteration gives nothing back when the continuation
    cannot start with a character of the class. *)
Lemma star_greedy (k : JS.charclass) (cont : string -> option R) (s : string) :
  (forall c t, JS.inClass k c = true -> cont (String c t) = None) ->
  JS.star k s cont = cont (dropWhile (JS.inClass k) s).
Proof.
  intros Hcont. induction s as [|c s IH]; [reflexivity|]. cbn [JS.star dropWhile].
  destruct (JS.inClass k c) eqn:Hc; [|reflexivity].
  rewrite IH. destruct (cont (dropWhile (JS.inClass k) s)) eqn:Hrest; [reflexivity|].
  now apply Hcont.
Qed.

(** A literal word binds no group. *)
Lemma exec_lit (w s : string) (caps : JS.captures)
      (cont : string -> JS.captures -> option R) (x : R) :
  JS.exec (JS.lit w) s caps cont = Some x -> exists t, cont t caps = Some x.
Proof.
  revert s. induction w as [|c w IH]; intros s; cbn [JS.lit JS.exec].
  - intros H. now exists s.
  - destruct s as [|c' s]; [discriminate|].
    destruct (Ascii.eqb c c'); [apply IH | discriminate].
Qed.
End Greedy.

Lemma eqb_class_false (f : ascii -> bool) (letter c : ascii) :
  f letter = false -> f c = true -> Ascii.eqb letter c = false.
Proof.
  intros Hl Hc. apply Ascii.eqb_neq. intros ->. congruence.
Qed.

Section UnitRegex.
Context {R : Type}.
Variable letter : ascii.
Hypothesis Hletter : unitLetter letter.
Variable tail : JS.regex.
Variable cont : string -> JS.captures -> option R.

(** The three patterns share their head: [(\d+)\s*] and the unit letter.
    At a given position it matches exactly a unit phrase, and group 1 is
    the whole run of digits. *)
Lemma exec_unit_head (s : string) :
  JS.exec (JS.Cat (JS.Grp 1 (JS.Plus JS.Digit))
             (JS.Cat (JS.Star JS.Space) (JS.Cat (JS.Chr letter) tail))) s [] cont =
  match s with
  | String c _ =>
      if JS.isDigit c then
        match dropWhile JS.isWhiteSpace (dropWhile JS.isDigit s) with
        | String l u =>
            if Ascii.eqb letter l
            then JS.exec tail u [(1, takeWhile JS.isDigit s)] cont
            else None
        | EmptyString => None
        end
      else None
  | EmptyString => None
  end.
Proof.
  destruct Hletter as [Hnd Hns].
  cbn [JS.exec]. destruct s as [|c s']; [reflexivity|].
  change (JS.inClass JS.Digit c) with (JS.isDigit c).
  destruct (JS.isDigit c) eqn:Hc; [|reflexivity].
  rewrite star_greedy.
  2:{ intros d t Hd. cbn [JS.star]. change (JS.inClass JS.Space d) with (JS.isWhiteSpace d).
      rewrite (digit_not_space d Hd), (eqb_class_false JS.isDigit letter d Hnd Hd).
      reflexivity. }
  rewrite star_greedy.
  2:{ intros d t Hd. now rewrite (eqb_class_false JS.isWhiteSpace letter d Hns Hd). }
  rewrite <- (consumed_takeWhile JS.isDigit (String c s')).
  cbn [dropWhile]. rewrite Hc. reflexivity.
Qed.
End UnitRegex.
(** The optional end of the three patterns, [(word)?s?], always matches
    and leaves group 1 as it was. *)
Lemma optional_tail (word start u : string) (caps : JS.captures) :
  exists groups,
    JS.exec (JS.Cat (JS.Opt (JS.Grp 2 (JS.lit word))) (JS.Opt (JS.Chr "s"))) u caps
            (fun t caps' => Some ((0, JS.consumed start t) :: caps')) = Some groups /\
    JS.capture 1 groups = JS.capture 1 caps.
Proof.
  cbn [JS.exec].
  match goal with
  | |- context [JS.exec (JS.lit word) u caps ?k] =>
      destruct (JS.exec (JS.lit word) u caps k) as [x|] eqn:Hword
  end.
  - exists x. split; [reflexivity|].
    apply exec_lit in Hword. destruct Hword as (t & Ht).
    destruct t as [|c t]; [|destruct (Ascii.eqb "s" c)];
      injection Ht as <-; reflexivity.
  - destruct u as [|c u]; [|destruct (Ascii.eqb "s" c)];
      eexists; split; reflexivity.
Qed.

(** At one position, the pattern of a unit matches exactly when a unit
    phrase starts there, and group 1 is its run of digits. *)
Lemma matchHere_unit (letter : ascii) (word s : string) :
  unitLetter letter ->
  (JS.matchHere (unitRegex letter word) s = None /\ unitHere letter s = None) \/
  (exists groups digits,
      JS.matchHere (unitRegex letter word) s = Some groups /\
      JS.capture 1 groups = Some digits /\ unitHere letter s = Some digits).
Proof.
  intros Hletter. unfold JS.matchHere, unitRegex.
  change (JS.exec (JS.Grp 0 ?r) s [] ?k)
    with (JS.exec r s [] (fun t caps' => k t ((0, JS.consumed s t) :: caps'))).
  rewrite (exec_unit_head letter Hletter). unfold unitHere.
  destruct s as [|c s']; [now left|].
  destruct (JS.isDigit c); [|now left].
  destruct (dropWhile JS.isWhiteSpace (dropWhile JS.isDigit (String c s'))) as [|l u];
    [now left|].
  destruct (Ascii.eqb letter l); [|now left].
  right.
  destruct (optional_tail word (String c s') u [(1, takeWhile JS.isDigit (String c s'))])
    as (groups & Hgroups & Hone).
  exists groups, (takeWhile JS.isDigit (String c s')). now repeat split.
Qed.

(** [match] with the pattern of a unit finds the leftmost unit phrase. *)
Lemma match_unit (letter : ascii) (word s : string) :
  unitLetter letter ->
  (JS.match_ (unitRegex letter word) s = None /\ firstUnit letter s = None) \/
  (exists groups digits,
      JS.match_ (unitRegex letter word) s = Some groups /\
      JS.capture 1 groups = Some digits /\ firstUnit letter s = Some digits).
Proof.
  intros Hletter. induction s as [|c s IH]; cbn [JS.match_ firstUnit].
  - destruct (matchHere_unit letter word EmptyString Hletter)
      as [[-> ->]|(groups & digits & -> & Hone & ->)]; [now left|].
    right. now exists groups, digits.
  - destruct (matchHere_unit letter word (String c s) Hletter)
      as [[-> ->]|(groups & digits & -> & Hone & ->)]; [exact IH|].
    right. now exists groups, digits.
Qed.

Lemma timePart_unit (letter : ascii) (word s : string) :
  unitLetter letter ->
  timePart (JS.match_ (unitRegex letter word) s) =
  unitValue (firstUnit letter s).
Proof.
  intros Hletter.
  destruct (match_unit letter word s Hletter)
    as [[-> ->]|(groups & digits & -> & Hone & ->)]; [reflexivity|].
  cbn [timePart]. now rewrite Hone.
Qed.

Lemma hours_letter : unitLetter "h". Proof. split; reflexivity. Qed.
Lemma minutes_letter : unitLetter "m". Proof. split; reflexivity. Qed.
Lemma seconds_letter : unitLetter "s". Proof. split; reflexivity. Qed.

(** *** The leftmost phrase of a text survives what is appended to it *)

Lemma dropWhile_app (f : ascii -> bool) (a b : string) (c : ascii) (r : string) :
  dropWhile f a = String c r -> dropWhile f (a ++ b) = String c (r ++ b).
Proof.
  induction a as [|x a IH]; [discriminate|]. cbn [dropWhile append].
  destruct (f x); [exact IH | now intros [= -> ->]].
Qed.

Lemma takeWhile_app (f : ascii -> bool) (a b : string) (c : ascii) (r : string) :
  dropWhile f a = String c r -> takeWhile f (a ++ b) = takeWhile f a.
Proof.
  induction a as [|x a IH]; [discriminate|]. cbn [dropWhile takeWhile append].
  destruct (f x); [|reflexivity]. intros H. now rewrite IH.
Qed.

Lemma dropWhile_twice (f g : ascii -> bool) (s : string) :
  dropWhile f s = EmptyString -> dropWhile f (dropWhile g s) = EmptyString.
Proof.
  induction s as [|c s IH]; [reflexivity|]. intros H. cbn [dropWhile] in *.
  destruct (g c); destruct (f c) eqn:Hf; try discriminate.
  - now apply IH.
  - cbn [dropWhile]. now rewrite Hf.
Qed.

Section FirstUnit.
Variable letter : ascii.

Lemma unitHere_app (a b digits : string) :
  unitHere letter a = Some digits -> unitHere letter (a ++ b) = Some digits.
Proof.
  destruct a as [|c a]; [discriminate|]. unfold unitHere.
  change (String c a ++ b) with (String c (a ++ b)). cbv beta iota.
  destruct (JS.isDigit c) eqn:Hc; [|discriminate].
  change (String c (a ++ b)) with (String c a ++ b).
  destruct (dropWhile JS.isDigit (String c a)) as [|x r] eqn:Hdigits; [discriminate|].
  destruct (dropWhile JS.isWhiteSpace (String x r)) as [|l u] eqn:Hspace; [discriminate|].
  rewrite (dropWhile_app _ _ b _ _ Hdigits), (takeWhile_app _ _ b _ _ Hdigits).
  change (String x (r ++ b)) with (String x r ++ b).
  now rewrite (dropWhile_app _ _ b _ _ Hspace).
Qed.

(** A text that ends inside a run of digits and white space has no
    unit phrase from there on. *)
Lemma firstUnit_unfinished (s : string) :
  dropWhile JS.isWhiteSpace (dropWhile JS.isDigit s) = EmptyString ->
  firstUnit letter s = None.
Proof.
  induction s as [|c s IH]; [reflexivity|]. intros Hend.
  cbn [firstUnit]. unfold unitHere. rewrite Hend.
  replace (if JS.isDigit c then None else None) with (@None string)
    by now destruct (JS.isDigit c).
  apply IH. cbn [dropWhile] in Hend. destruct (JS.isDigit c); [exact Hend|].
  cbn [dropWhile] in Hend. destruct (JS.isWhiteSpace c); [|discriminate].
  now apply dropWhile_twice.
Qed.

Lemma unitHere_none_app (a b : string) :
  unitHere letter a = None ->
  dropWhile JS.isWhiteSpace (dropWhile JS.isDigit a) <> EmptyString ->
  unitHere letter (a ++ b) = None.
Proof.
  destruct a as [|c a]; [now intros _ []|]. unfold unitHere.
  change (String c a ++ b) with (String c (a ++ b)). cbv beta iota.
  destruct (JS.isDigit c) eqn:Hc; [|reflexivity].
  change (String c (a ++ b)) with (String c a ++ b).
  destruct (dropWhile JS.isDigit (String c a)) as [|x r] eqn:Hdigits; [now intros _ []|].
  destruct (dropWhile JS.isWhiteSpace (String x r)) as [|l u] eqn:Hspace; [now intros _ []|].
  rewrite (dropWhile_app _ _ b _ _ Hdigits).
  change (String x (r ++ b)) with (String x r ++ b).
  rewrite (dropWhile_app _ _ b _ _ Hspace).
  now destruct (Ascii.eqb letter l).
Qed.

(** First match wins: once a text has a unit phrase, nothing that
    follows the text changes which phrase is found. *)
Lemma firstUnit_app (a b digits : string) :
  firstUnit letter a = Some digits -> firstUnit letter (a ++ b) = Some digits.
Proof.
  induction a as [|c a IH]; [discriminate|]. intros Hfirst.
  destruct (unitHere letter (String c a)) as [d|] eqn:Hhere.
  - cbn [firstUnit] in Hfirst. rewrite Hhere in Hfirst.
    change (String c a ++ b) with (String c (a ++ b)). cbn [firstUnit].
    change (String c (a ++ b)) with (String c a ++ b).
    now rewrite (unitHere_app _ b _ Hhere).
  - destruct (dropWhile JS.isWhiteSpace (dropWhile JS.isDigit (String c a))) eqn:Hend.
    + rewrite (firstUnit_unfinished _ Hend) in Hfirst. discriminate.
    + cbn [firstUnit] in Hfirst. rewrite Hhere in Hfirst.
      change (String c a ++ b) with (String c (a ++ b)). cbn [firstUnit].
      change (String c (a ++ b)) with (String c a ++ b).
      rewrite (unitHere_none_app _ b Hhere) by (rewrite Hend; discriminate).
      now apply IH.
Qed.

Lemma firstUnit_digitFree (s : string) : digitFree s -> firstUnit letter s = None.
Proof.
  induction s as [|c s IH]; [reflexivity|]. intros [Hc Hs].
  cbn [firstUnit]. unfold unitHere. rewrite Hc. now apply IH.
Qed.
End FirstUnit.

Lemma hoursOf_spec (command : string) : hoursOf command = unitValue (firstUnit "h" command).
Proof. apply timePart_unit, hours_letter. Qed.

Lemma minutesOf_spec (command : string) :
  minutesOf command = unitValue (firstUnit "m" command).
Proof. apply timePart_unit, minutes_letter. Qed.

Lemma secondsOf_spec (command : string) :
  secondsOf command = unitValue (firstUnit "s" command).
Proof. apply timePart_unit, seconds_letter. Qed.

(** Appending to a text in which a unit was found leaves its value alone. *)
Lemma timePart_app (letter : ascii) (word command rest : string) :
  unitLetter letter ->
  JS.match_ (unitRegex letter word) command <> None ->
  timePart (JS.match_ (unitRegex letter word) (command ++ rest)) =
  timePart (JS.match_ (unitRegex letter word) command).
Proof.
  intros Hletter Hfound. rewrite !timePart_unit by exact Hletter.
  destruct (match_unit letter word command Hletter)
    as [[Hnone _]|(groups & digits & _ & _ & Hfirst)]; [contradiction|].
  now rewrite (firstUnit_app letter command rest digits Hfirst), Hfirst.
Qed.

(** *** The arithmetic of the duration *)

Lemma unitValue_exact (phrase : option string) :
  unitValue phrase = JS.double (exactValue phrase).
Proof. destruct phrase; reflexivity. Qed.

(** Below 2^53 milliseconds nothing is rounded. *)
Lemma exact_arithmetic (h m s : N) :
  ((h * 3600 + m * 60 + s) * 1000 < 2 ^ 53)%N ->
  JS.plus (JS.plus (JS.times (JS.double h) 3600) (JS.times (JS.double m) 60)) (JS.double s)
  = (h * 3600 + m * 60 + s)%N /\
  JS.times (JS.plus (JS.plus (JS.times (JS.double h) 3600) (JS.times (JS.double m) 60))
                    (JS.double s)) 1000
  = ((h * 3600 + m * 60 + s) * 1000)%N.
Proof.
  intros Hsafe. unfold JS.plus, JS.times.
  change (2 ^ 53)%N with 9007199254740992%N in Hsafe.
  assert (Hsmall : forall p, (p <= (h * 3600 + m * 60 + s) * 1000)%N -> JS.double p = p).
  { intros p Hp. apply double_small. change (2 ^ 53)%N with 9007199254740992%N. lia. }
  rewrite (Hsmall h), (Hsmall m), (Hsmall s) by lia.
  change (N.pos 3600) with 3600%N. change (N.pos 60) with 60%N.
  change (N.pos 1000) with 1000%N.
  rewrite (Hsmall (h * 3600)%N), (Hsmall (m * 60)%N) by lia.
  rewrite (Hsmall (h * 3600 + m * 60)%N) by lia.
  rewrite (Hsmall (h * 3600 + m * 60 + s)%N) by lia.
  split; [reflexivity|]. apply Hsmall. lia.
Qed.

(** ** Claims about [handleRemind] *)

Local Open Scope list_scope.

(** C4. The time-span parser looks for an hours, a minutes and a
    seconds phrase independently of each other, each one optional (the
    leftmost run of digits, white space and unit letter; 0 when there is
    none), and the duration is (hours * 3600) + (minutes * 60) + seconds
    in the arithmetic of JavaScript numbers, which is the exact sum as
    long as the duration in milliseconds is below 2^53: 5400 for
    "remind in 1 hour 30 minutes", 45 for "remind in 45s", and 0 for a
    text without a digit. With a positive duration (and a library that
    raises nothing) the handler hands the timer one reminder, due after
    duration * 1000 milliseconds. With a duration of 0 it schedules
    nothing and sends nothing, whatever the library does, and its one
    reply is the fixed format-not-understood text. *)
Theorem remind_time_span (message : Message) (env : Env) :
  let command := JS.toLowerCase (body message) in
  let total := totalSecondsOf command in
  let exact := (exactValue (firstUnit "h" command) * 3600
                + exactValue (firstUnit "m" command) * 60
                + exactValue (firstUnit "s" command))%N in
  let outcome := run (handleRemind message) env in
  total = JS.plus (JS.plus (JS.times (unitValue (firstUnit "h" command)) 3600)
                           (JS.times (unitValue (firstUnit "m" command)) 60))
                  (unitValue (firstUnit "s" command)) /\
  ((exact * 1000 < 2 ^ 53)%N ->
   total = exact /\ JS.times total 1000 = (exact * 1000)%N) /\
  totalSecondsOf "remind in 1 hour 30 minutes" = 5400%N /\
  totalSecondsOf "remind in 45s" = 45%N /\
  (digitFree command -> total = 0%N) /\
  ((0 < total)%N -> reliable env ->
   fst outcome = Ok tt /\
   scheduled (snd outcome) = [(reminderTarget message, JS.times total 1000)]) /\
  ((total <= 0)%N ->
   scheduled (snd outcome) = [] /\
   send_calls (snd outcome) = [] /\
   (reliable env ->
    fst outcome = Ok tt /\
    reply_calls (snd outcome) = [time_format_reply] /\
    replied (snd outcome) = [time_format_reply])).
Proof.
  cbv zeta.
  assert (Hsum : totalSecondsOf (JS.toLowerCase (body message)) =
                 JS.plus (JS.plus (JS.times (unitValue (firstUnit "h" (JS.toLowerCase (body message)))) 3600)
                                  (JS.times (unitValue (firstUnit "m" (JS.toLowerCase (body message)))) 60))
                         (unitValue (firstUnit "s" (JS.toLowerCase (body message))))).
  { unfold totalSecondsOf. now rewrite hoursOf_spec, minutesOf_spec, secondsOf_spec. }
  split; [exact Hsum|]. split; [|split; [reflexivity|]; split; [reflexivity|]; split; [|split]].
  - rewrite Hsum, !unitValue_exact. apply exact_arithmetic.
  - intros Hfree. rewrite Hsum, !firstUnit_digitFree by exact Hfree. reflexivity.
  - intros Hpos Hrel. apply N.leb_gt in Hpos. unfold totalSecondsOf in Hpos.
    unfold handleRemind. unfold_handler. cbv zeta.
    repeat first [ rewrite Hrel | rewrite Hpos | progress cbv beta iota ].
    split; reflexivity.
  - intros Hzero. apply N.leb_le in Hzero. unfold totalSecondsOf in Hzero.
    split; [|split].
    + unfold handleRemind. unfold_handler. cbv zeta.
      repeat first [ next_call | rewrite Hzero | progress cbv beta iota ];
        reflexivity.
    + unfold handleRemind. unfold_handler. cbv zeta.
      repeat first [ next_call | rewrite Hzero | progress cbv beta iota ];
        reflexivity.
    + intros Hrel. unfold handleRemind. unfold_handler. cbv zeta.
      repeat first [ rewrite Hrel | rewrite Hzero | progress cbv beta iota ].
      repeat split.
Qed.

(** "$Remind in 1 hour 30 minutes" is within the exact range, lasts 5400
    seconds and is scheduled after 5400000 milliseconds. *)
Lemma remind_time_span_witness :
  let message := incoming "$Remind in 1 hour 30 minutes" (group 3) "2@c.us" [] in
  let outcome := run (handleRemind message) quiet in
  totalSecondsOf (JS.toLowerCase (body message)) = 5400%N /\
  fst outcome = Ok tt /\
  scheduled (snd outcome) = [(someone, 5400000%N)].
Proof.
  cbv zeta.
  pose proof (remind_time_span
                (incoming "$Remind in 1 hour 30 minutes" (group 3) "2@c.us" []) quiet)
    as Hspan.
  cbv zeta in Hspan. destruct Hspan as (_ & Hexact & _ & _ & _ & Hpositive & _).
  split.
  - apply Hexact. vm_compute. reflexivity.
  - apply Hpositive.
    + vm_compute. reflexivity.
    + exact reliable_quiet.
Defined.

(** C5 (as the code has it). A repeated unit is counted once: each
    pattern is matched a single time, at its leftmost phrase, so
    "remind in 1 hour 1 hour" gives 3600 seconds, and in general nothing
    that follows a text in which a unit was found changes that unit's
    value. *)
Theorem repeated_unit_counted_once (command rest : string) :
  totalSecondsOf "remind in 1 hour 1 hour" = 3600%N /\
  (JS.match_ hoursRegex command <> None ->
   hoursOf (command ++ rest) = hoursOf command) /\
  (JS.match_ minutesRegex command <> None ->
   minutesOf (command ++ rest) = minutesOf command) /\
  (JS.match_ secondsRegex command <> None ->
   secondsOf (command ++ rest) = secondsOf command).
Proof.
  split; [reflexivity|]. repeat split; intros Hfound.
  - now apply timePart_app; [apply hours_letter|].
  - now apply timePart_app; [apply minutes_letter|].
  - now apply timePart_app; [apply seconds_letter|].
Qed.

Lemma repeated_unit_counted_once_witness :
  hoursOf ("remind in 1 hour" ++ " 1 hour") = hoursOf "remind in 1 hour".
Proof.
  apply (repeated_unit_counted_once "remind in 1 hour" " 1 hour").
  vm_compute. discriminate.
Defined.

(** C5, as stated, fails: the second hour phrase of
    "remind in 1 hour 1 hour" contributes nothing, and the duration is
    3600 seconds, not 7200. *)
Lemma second_hour_phrase_ignored :
  hoursOf "remind in 1 hour 1 hour" = 1%N /\
  totalSecondsOf "remind in 1 hour 1 hour" = 3600%N /\
  totalSecondsOf "remind in 1 hour 1 hour" <> 7200%N.
Proof. repeat split. discriminate. Qed.

(** * Further properties of the handlers *)

Local Open Scope list_scope.

(** X1. The deferred reminder never raises: it issues one [sendMessage]
    call, to the target it was scheduled for, and when that call raises
    it logs the error and returns. *)
Theorem reminder_callback_never_raises (chat : Chat) (target : Contact) (env : Env) (h : trace) :
  let message := SendMessage (reminderText target) [MentionContact target] in
  exists t,
    reminderCallback chat target env h = (Ok tt, h ++ t) /\
    send_calls t = [(reminderText target, [MentionContact target])] /\
    match raises env h message with
    | None => sent t = send_calls t /\ clean t
    | Some e => sent t = [] /\ t = [Failed message e; Done (ConsoleError reminder_error_log e)]
    end.
Proof.
  cbv zeta. unfold reminderCallback. unfold_handler. fold (reminderText target).
  destruct (raises env h (SendMessage (reminderText target) [MentionContact target])) as [e|];
    eexists; rewrite <- ?app_assoc; (split; [reflexivity|]); repeat split.
  solve_clean.
Qed.

(** Finds the call that stopped a [try] block in an explicit trace. *)
Ltac solve_recovered :=
  unfold recovered;
  (eexists [] + eexists [_] + eexists [_; _] + eexists [_; _; _]
   + eexists [_; _; _; _] + eexists [_; _; _; _; _] + eexists [_; _; _; _; _; _]);
  do 2 eexists; split; cycle 1;
  [ first [ left; split; reflexivity | right; eexists; split; reflexivity ]
  | solve [solve_clean] ].

(** X2. Whatever the library does, [handleRemind] hands a reminder to
    the timer only after its confirmation was delivered and nothing
    raised, and then exactly one, for the resolved target and with the
    delay [totalSeconds * 1000] as JavaScript computes it; an invocation
    that was stopped logs the error and attempts one apology reply. *)
Theorem remind_schedules_after_confirmation (message : Message) (env : Env) :
  let total := totalSecondsOf (JS.toLowerCase (body message)) in
  let outcome := run (handleRemind message) env in
  (scheduled (snd outcome) = [] \/
   (scheduled (snd outcome) = [(reminderTarget message, JS.times total 1000)] /\
    fst outcome = Ok tt /\ clean (snd outcome) /\
    exists text, sent (snd outcome) = [(text, [MentionContact (reminderTarget message)])])) /\
  ((fst outcome = Ok tt /\ clean (snd outcome)) \/
   recovered remind_error_log remind_failure_reply (fst outcome) (snd outcome)).
Proof.
  cbv zeta. unfold handleRemind, totalSecondsOf, reminderTarget. unfold_handler. cbv zeta.
  destruct (_ <=? 0)%N;
    repeat first [ next_call | progress cbv beta iota ];
    (split;
     [ first [ left; reflexivity
             | right; split; [reflexivity|]; split; [reflexivity|]; split;
               [solve [solve_clean] | eexists; reflexivity] ]
     | first [ left; split; [reflexivity | solve [solve_clean]]
             | right; solve_recovered ] ]).
Qed.

Local Open Scope string_scope.

Lemma lastChar_app (a b : string) :
  lastChar (a ++ b) = match lastChar b with Some c => Some c | None => lastChar a end.
Proof.
  induction a as [|x a IH]; cbn [append lastChar].
  - now destruct (lastChar b).
  - rewrite IH. now destruct (lastChar b).
Qed.

Lemma trimEnd_fixed (s : string) (c : ascii) :
  lastChar s = Some c -> JS.isWhiteSpace c = false -> JS.trimEnd s = s.
Proof.
  revert c. induction s as [|x s IH]; intros c; [discriminate|].
  cbn [lastChar JS.trimEnd]. destruct (lastChar s) as [d|] eqn:Hlast.
  - intros [= ->] Hc. rewrite (IH c eq_refl Hc). destruct s; [discriminate | reflexivity].
  - intros [= ->] Hc. destruct s as [|y s]; [|cbn in Hlast; now destruct (lastChar s)].
    cbn. now rewrite Hc.
Qed.

(** [trim] leaves alone a text that neither starts nor ends with white space. *)
Lemma trim_fixed (x c : ascii) (s : string) :
  JS.isWhiteSpace x = false -> lastChar (String x s) = Some c -> JS.isWhiteSpace c = false ->
  JS.trim (String x s) = String x s.
Proof.
  intros Hx Hlast Hc. unfold JS.trim. rewrite (trimEnd_fixed _ c Hlast Hc).
  cbn. now rewrite Hx.
Qed.

Ltac flatten_text := rewrite ?append_assoc, ?append_empty_r; cbn [append].

Lemma confirmation_trimmed (target : Contact) (hours minutes seconds : N) :
  (0 < JS.plus (JS.plus (JS.times hours 3600) (JS.times minutes 60)) seconds)%N ->
  JS.trim ("Acknowledged. A reminder has been scheduled for @" ++ number target ++ " in "
           ++ (if (0 <? hours)%N then JS.showN hours ++ " hour(s) " else EmptyString)
           ++ (if (0 <? minutes)%N then JS.showN minutes ++ " minute(s) " else EmptyString)
           ++ (if (0 <? seconds)%N then JS.showN seconds ++ " second(s)" else EmptyString))
  = confirmationText target hours minutes seconds.
Proof.
  intros Hpos. unfold confirmationText, unitPhrases.
  destruct (N.ltb_spec 0 hours), (N.ltb_spec 0 minutes), (N.ltb_spec 0 seconds);
    try (replace hours with 0%N in Hpos by lia; replace minutes with 0%N in Hpos by lia;
         replace seconds with 0%N in Hpos by lia; vm_compute in Hpos; discriminate);
    cbn [app JS.join].
  all: match goal with
       | |- JS.trim ?raw = ?text =>
           first [ replace raw with text by (flatten_text; reflexivity)
                 | replace raw with (text ++ " ") by (flatten_text; reflexivity);
                   unfold JS.trim; rewrite trimEnd_snoc_space; fold (JS.trim text) ]
       end.
  all: flatten_text; eapply trim_fixed;
    [ reflexivity
    | repeat (cbn [lastChar]; rewrite ?lastChar_app); reflexivity
    | reflexivity ].
Qed.

Local Open Scope list_scope.

(** X3. On the normal path with a positive duration, [handleRemind]
    ends with the confirmation and then the timer: the confirmation
    names exactly the units that are not zero, in the order hours,
    minutes, seconds, each number printed as a template literal prints
    it (exponent form from 1e21 on), and both are addressed to the first
    mentioned contact, or to the sender when nobody is mentioned. The
    delay of the timer is [totalSeconds * 1000] as JavaScript computes
    it. *)
Theorem remind_confirms_then_schedules (message : Message) (env : Env) :
  let command := JS.toLowerCase (body message) in
  let target := reminderTarget message in
  reliable env ->
  (0 < totalSecondsOf command)%N ->
  exists before,
    run (handleRemind message) env
    = (Ok tt,
       before ++
       [Done (SendMessage
                (confirmationText target (hoursOf command) (minutesOf command)
                                  (secondsOf command))
                [MentionContact target]);
        Done (SetTimeout target (JS.times (totalSecondsOf command) 1000))]) /\
    send_calls before = [] /\ reply_calls before = [] /\ scheduled before = [].
Proof.
  cbv zeta. intros Hrel Hpos.
  pose proof (confirmation_trimmed (reminderTarget message) _ _ _ Hpos) as Htext.
  apply N.leb_gt in Hpos. unfold totalSecondsOf in *.
  unfold handleRemind. unfold_handler. cbv zeta.
  repeat first [ rewrite Hrel | rewrite Hpos | progress cbv beta iota ].
  fold (reminderTarget message). rewrite Htext.
  eexists [_; _; _; _; _]. split; [reflexivity|]. repeat split.
Qed.

(** Two hours and five seconds for the first of two mentioned contacts;
    and a duration that JavaScript prints in exponent form and turns
    into a delay of Infinity milliseconds on the way. *)
Lemma remind_confirms_then_schedules_witness :
  let message := incoming "$Remind @7 in 2 hours 5 seconds" (group 3) "2@c.us"
                          [someone_else; someone] in
  let late := incoming ("$remind in 1" ++ JS.zeros 21 ++ " hours " ++ "1" ++ JS.zeros 309 ++ "s")
                       (group 3) "2@c.us" [] in
  (exists before,
     run (handleRemind message) quiet
     = (Ok tt,
        before ++
        [Done (SendMessage
                 "Acknowledged. A reminder has been scheduled for @7 in 2 hour(s) 5 second(s)"
                 [MentionContact someone_else]);
         Done (SetTimeout someone_else 7205000%N)])) /\
  (exists before,
     run (handleRemind late) quiet
     = (Ok tt,
        before ++
        [Done (SendMessage
                 "Acknowledged. A reminder has been scheduled for @0 in 1e+21 hour(s) Infinity second(s)"
                 [MentionContact someone]);
         Done (SetTimeout someone JS.Infinity)])).
Proof.
  cbv zeta. split.
  - destruct (remind_confirms_then_schedules
                (incoming "$Remind @7 in 2 hours 5 seconds" (group 3) "2@c.us"
                          [someone_else; someone]) quiet reliable_quiet)
      as (before & Hrun & _).
    + vm_compute. reflexivity.
    + exists before. rewrite Hrun. vm_compute. reflexivity.
  - destruct (remind_confirms_then_schedules
                (incoming ("$remind in 1" ++ JS.zeros 21 ++ " hours " ++ "1" ++ JS.zeros 309 ++ "s")
                          (group 3) "2@c.us" []) quiet reliable_quiet)
      as (before & Hrun & _).
    + vm_compute. reflexivity.
    + exists before. rewrite Hrun. vm_compute. reflexivity.
Defined.

Local Open Scope list_scope.

(** X4. The roast selector reads roasts.txt exactly once on each call
    and calls nothing else; it writes to the console only when that
    read raises, once, and then answers the unreadable-file text. When
    the read returns, the answer is the empty-file text if every line
    of the file is blank, and a line of the file that is not blank
    otherwise. *)
Theorem roast_selector_reads_once (env : Env) (h : trace) :
  JS.isFraction (Math_random env) = true ->
  let lines := JS.split (ascii_of_nat 10) (roasts_txt env) in
  exists roast,
    match raises env h (ReadFileSync roasts_path) with
    | Some e =>
        getRandomRoast env h
        = (Ok (Some roast),
           h ++ [Failed (ReadFileSync roasts_path) e;
                 Done (ConsoleError "[ERROR] Could not read roasts.txt:" e)]) /\
        roast = roast_file_unreadable
    | None =>
        getRandomRoast env h = (Ok (Some roast), h ++ [Done (ReadFileSync roasts_path)]) /\
        ((forall line, In line lines -> JS.trim line = EmptyString) ->
         roast = roast_file_empty) /\
        ((exists line, In line lines /\ JS.trim line <> EmptyString) ->
         In roast lines /\ JS.trim roast <> EmptyString)
    end.
Proof.
  cbv zeta. intros Hrandom.
  unfold getRandomRoast, try_catch, bind, readFileSync, perform, console_error, emit,
    random, ret.
  destruct (raises env h (ReadFileSync roasts_path)) as [e|].
  - exists roast_file_unreadable. rewrite <- app_assoc. split; reflexivity.
  - destruct (nonBlankLines (roasts_txt env)) as [|first lines] eqn:Hlines.
    + exists roast_file_empty. cbn [length Nat.eqb].
      split; [reflexivity|]. split; [reflexivity|].
      intros (line & Hline & Hfull).
      assert (Hin : In line (nonBlankLines (roasts_txt env))) by now apply nonBlankLines_In.
      rewrite Hlines in Hin. contradiction.
    + cbn [length Nat.eqb].
      destruct (at_index_In (first :: lines)
                  (JS.floorOfProduct (Math_random env) (N.of_nat (length (first :: lines)))))
        as (roast & Hroast & Hin).
      { apply floorOfProduct_index; [exact Hrandom | cbn [length]; lia]. }
      exists roast. cbn [length] in Hroast. rewrite Hroast. split; [reflexivity|].
      rewrite <- Hlines in Hin. apply nonBlankLines_In in Hin. destruct Hin as [Hin Hfull].
      split; [|intros _; now split].
      intros Hblank. now apply Hblank in Hin.
Qed.

(** On the file of three roasts and a blank line: one read, nothing on
    the console, and one of the three roasts. *)
Lemma roast_selector_reads_once_witness :
  exists roast,
    getRandomRoast three_roasts [] = (Ok (Some roast), [] ++ [Done (ReadFileSync roasts_path)]) /\
    In roast ["You are a typo."; "You peaked in beta."; "Even your cache misses you."].
Proof.
  destruct (roast_selector_reads_once three_roasts [] eq_refl) as (roast & Hrun & Hcases).
  exists roast. split; [exact Hrun|].
  assert (Hline : In roast (JS.split (ascii_of_nat 10) (roasts_txt three_roasts)) /\
                  JS.trim roast <> EmptyString).
  { apply (proj2 Hcases). exists "Even your cache misses you.".
    split; [do 3 right; left; reflexivity | vm_compute; discriminate]. }
  destruct Hline as [Hin Hfull].
  change (JS.split (ascii_of_nat 10) (roasts_txt three_roasts))
    with ["You are a typo."; "   "; "You peaked in beta."; "Even your cache misses you.";
          EmptyString] in Hin.
  destruct Hin as [<-|[<-|[<-|[<-|[<-|[]]]]]].
  - left. reflexivity.
  - exfalso. apply Hfull. reflexivity.
  - right. left. reflexivity.
  - right. right. left. reflexivity.
  - exfalso. apply Hfull. reflexivity.
Defined.

(** Whatever [Math.random()] and the file system do, the selector
    returns, having read the file once and logged at most one error. *)
Lemma getRandomRoast_trace (env : Env) (h : trace) :
  exists roast t,
    getRandomRoast env h = (Ok roast, h ++ t) /\
    (t = [Done (ReadFileSync roasts_path)] \/
     exists e, t = [Failed (ReadFileSync roasts_path) e;
                    Done (ConsoleError "[ERROR] Could not read roasts.txt:" e)]).
Proof.
  unfold getRandomRoast, try_catch, bind, readFileSync, perform, console_error, emit,
    random, ret.
  destruct (raises env h (ReadFileSync roasts_path)) as [e|].
  - do 2 eexists. rewrite <- app_assoc. split; [reflexivity|]. right. now exists e.
  - destruct (length (nonBlankLines (roasts_txt env)) =? 0)%nat;
      do 2 eexists; (split; [reflexivity | now left]).
Qed.

Lemma unreadable_only_the_file :
  forall h c, c <> ReadFileSync roasts_path -> raises unreadable h c = None.
Proof.
  intros h c Hc. destruct c; try reflexivity. cbn.
  destruct (String.eqb_spec path roasts_path); [subst; contradiction | reflexivity].
Qed.

(** X5. A roast command with a mention, in a world where only the read
    of roasts.txt may fail, returns after delivering exactly one
    message and no reply. The message is addressed to the first
    mentioned contact alone, and its text ends with what the selector
    answers when it is called after the mentions were fetched: the
    unreadable-file text when the read raises, the empty-file text when
    every line of the file is blank, and a line that is not blank
    otherwise. *)
Theorem roast_reaches_first_mention (target : Contact) (others : list Contact)
        (message : Message) (env : Env) :
  mentions_of message = Some (target :: others) ->
  (forall h c, c <> ReadFileSync roasts_path -> raises env h c = None) ->
  JS.isFraction (Math_random env) = true ->
  let lines := JS.split (ascii_of_nat 10) (roasts_txt env) in
  exists roast t,
    fst (getRandomRoast env (beforeTheRoast message)) = Ok (Some roast) /\
    run (handleRoast message) env = (Ok tt, t) /\
    sent t = [(roastMessage target roast, [MentionContact target])] /\
    send_calls t = sent t /\
    reply_calls t = [] /\
    match raises env (beforeTheRoast message) (ReadFileSync roasts_path) with
    | Some e => roast = roast_file_unreadable
    | None =>
        ((forall line, In line lines -> JS.trim line = EmptyString) ->
         roast = roast_file_empty) /\
        ((exists line, In line lines /\ JS.trim line <> EmptyString) ->
         In roast lines /\ JS.trim roast <> EmptyString)
    end.
Proof.
  cbv zeta. intros Hmention Hok Hrandom.
  destruct (getRandomRoast_outcome env (beforeTheRoast message) Hrandom) as (roast & Hroast).
  exists roast.
  unfold handleRoast. unfold_handler.
  rewrite (Hok _ GetContact) by discriminate. cbv beta iota.
  rewrite (Hok _ GetChat) by discriminate. cbv beta iota.
  rewrite (Hok _ GetMentions) by discriminate. cbv beta iota.
  rewrite Hmention. cbv beta iota.
  change ((((([] ++ [Done GetContact]) ++ [Done GetChat]) ++ [Done (ConsoleLog ?text)])
           ++ [Done GetMentions])%list)
    with [Done GetContact; Done GetChat; Done (ConsoleLog text); Done GetMentions].
  fold (beforeTheRoast message).
  destruct (raises env (beforeTheRoast message) (ReadFileSync roasts_path)) as [e|];
    destruct Hroast as (Hrun & Hchoice); rewrite Hrun; cbv beta iota;
    rewrite Hok by discriminate; eexists; (split; [reflexivity|]);
    (split; [reflexivity|]); (split; [reflexivity|]); (split; [reflexivity|]);
    (split; [reflexivity|]).
  - exact Hchoice.
  - destruct Hchoice as [[-> Hblank]|[Hin Hfull]].
    + split; [reflexivity|]. intros (line & Hline & Hline'). now apply Hblank in Hline.
    + split; [|intros _; now split]. intros Hblank. now apply Hblank in Hin.
Qed.

(** With roasts.txt unreadable the one message carries the
    unreadable-file text. *)
Lemma roast_reaches_first_mention_witness :
  let message := incoming "$roast @7 @0" (group 3) "2@c.us" [someone_else; someone] in
  exists t,
    run (handleRoast message) unreadable = (Ok tt, t) /\
    sent t = [(roastMessage someone_else roast_file_unreadable, [MentionContact someone_else])] /\
    send_calls t = sent t /\
    reply_calls t = [].
Proof.
  cbv zeta.
  destruct (roast_reaches_first_mention someone_else [someone]
              (incoming "$roast @7 @0" (group 3) "2@c.us" [someone_else; someone]) unreadable
              eq_refl unreadable_only_the_file eq_refl)
    as (roast & t & _ & Hrun & Hsent & Hcalls & Hreplies & Hcase).
  change (roast = roast_file_unreadable) in Hcase. subst roast.
  exists t. repeat split; assumption.
Defined.

Ltac raise_leaf :=
  first [ left; reflexivity | right; do 2 eexists; split; reflexivity ].

Lemma handleRoast_any (message : Message) (env : Env) :
  let outcome := run (handleRoast message) env in
  raised_by_apology roast_failure_reply (fst outcome) (snd outcome) /\
  length (send_calls (snd outcome)) <= 1.
Proof.
  cbv zeta. unfold raised_by_apology, handleRoast. unfold_handler.
  destruct (mentions_of message) as [[|target others]|] eqn:Hmentions.
  - repeat first [ next_call | progress cbv beta iota | rewrite Hmentions ];
      (split; [raise_leaf | cbn; lia]).
  - repeat first [ next_call | progress cbv beta iota | rewrite Hmentions ];
      try match goal with
          | |- context [getRandomRoast env ?h] =>
              destruct (getRandomRoast_trace env h) as (roast & t & -> & [->|[e' ->]])
          end;
      repeat first [ next_call | progress cbv beta iota ];
      (split; [raise_leaf | rewrite ?send_calls_app; cbn; lia]).
  - repeat first [ next_call | progress cbv beta iota | rewrite Hmentions ];
      (split; [raise_leaf | cbn; lia]).
Qed.

Lemma handleRemind_any (message : Message) (env : Env) :
  let outcome := run (handleRemind message) env in
  raised_by_apology remind_failure_reply (fst outcome) (snd outcome).
Proof.
  cbv zeta. unfold raised_by_apology, handleRemind. unfold_handler. cbv zeta.
  destruct (_ <=? 0)%N; repeat first [ next_call | progress cbv beta iota ]; raise_leaf.
Qed.

Lemma handleTagAll_raise (cfg : Config) (fuel : nat) (message : Message) (env : Env) :
  0 < TAG_BATCH_SIZE cfg ->
  length (participants (chat_of message)) <= fuel ->
  let outcome := run (handleTagAll cfg fuel message) env in
  raised_by_apology tagall_failure_reply (fst outcome) (snd outcome).
Proof.
  cbv zeta. intros Hsize Hfuel.
  destruct (handleTagAll_any cfg fuel message env)
    as (r & t & k & -> & _ & Hshape & Hterm).
  cbn [fst snd]. specialize (Hterm Hsize Hfuel).
  destruct Hshape as [[_ Hnothrow]|(before & c & e & _ & [[-> _]|(e' & -> & ->)])].
  - left. destruct r as [[]|e|]; [reflexivity | now destruct (Hnothrow e) | contradiction].
  - now left.
  - right. exists e', (before ++ [Failed c e; Done (ConsoleError tagall_error_log e)]).
    split; [reflexivity | now rewrite <- app_assoc].
Qed.

Local Open Scope string_scope.

(** No text starts with two of the three command tokens. *)
Lemma tokens_exclusive (command : string) :
  (JS.startsWith command "$tagall!" = true ->
   JS.startsWith command "$remind" = false /\ JS.startsWith command "$roast" = false) /\
  (JS.startsWith command "$remind" = true -> JS.startsWith command "$roast" = false).
Proof.
  unfold JS.startsWith.
  destruct command as [|a [|b [|c rest]]]; cbn [String.prefix];
    repeat match goal with
           | |- context [ascii_dec ?x ?y] => destruct (ascii_dec x y); subst
           end;
    repeat split; intros; try discriminate; try congruence; auto.
Qed.

Local Open Scope list_scope.

(** X6. Each handler is selected by its own token alone: no text starts
    with two of the three tokens, so the order in which the dispatcher
    tests them never decides; a text that starts with none of them
    causes no call at all. *)
Theorem dispatcher_routing (cfg : Config) (fuel : nat) (message : Message) :
  let command := JS.toLowerCase (JS.trim (body message)) in
  (JS.startsWith command "$tagall!" = true ->
   onMessage cfg fuel message = handleTagAll cfg fuel message) /\
  (JS.startsWith command "$remind" = true ->
   onMessage cfg fuel message = handleRemind message) /\
  (JS.startsWith command "$roast" = true ->
   onMessage cfg fuel message = handleRoast message) /\
  (JS.startsWith command "$tagall!" = false ->
   JS.startsWith command "$remind" = false ->
   JS.startsWith command "$roast" = false ->
   forall env, run (onMessage cfg fuel message) env = (Ok tt, [])).
Proof.
  cbv zeta. unfold onMessage.
  destruct (tokens_exclusive (JS.toLowerCase (JS.trim (body message)))) as [Htag Hremind].
  repeat split.
  - now intros ->.
  - intros Hr. destruct (JS.startsWith _ "$tagall!") eqn:Ht.
    + destruct (Htag eq_refl). congruence.
    + now rewrite Hr.
  - intros Hr. destruct (JS.startsWith _ "$tagall!") eqn:Ht.
    + destruct (Htag eq_refl). congruence.
    + destruct (JS.startsWith _ "$remind") eqn:Hm.
      * specialize (Hremind eq_refl). congruence.
      * now rewrite Hr.
  - now intros -> -> ->.
Qed.

Lemma dispatcher_routing_witness :
  let message := incoming "  $Remind me in 5m" (group 3) "2@c.us" [] in
  onMessage bot_config 3 message = handleRemind message.
Proof.
  cbv zeta.
  apply (dispatcher_routing bot_config 3 (incoming "  $Remind me in 5m" (group 3) "2@c.us" [])).
  reflexivity.
Defined.

(** X7. Whatever the library does, the dispatcher returns, or raises the
    error of an apology reply that failed as the last call of the
    handler; no other error leaves a handler. *)
Theorem dispatcher_raises_only_apology_errors
        (cfg : Config) (fuel : nat) (message : Message) (env : Env) :
  0 < TAG_BATCH_SIZE cfg ->
  length (participants (chat_of message)) <= fuel ->
  let outcome := run (onMessage cfg fuel message) env in
  fst outcome = Ok tt \/
  exists e before apology,
    In apology failure_replies /\
    fst outcome = Throw e /\
    snd outcome = before ++ [Failed (Reply apology) e].
Proof.
  cbv zeta. intros Hsize Hfuel. unfold onMessage, failure_replies.
  destruct (JS.startsWith _ "$tagall!");
    [|destruct (JS.startsWith _ "$remind"); [|destruct (JS.startsWith _ "$roast")]].
  - destruct (handleTagAll_raise cfg fuel message env Hsize Hfuel)
      as [Hok|(e & before & Hr & Ht)]; [now left|].
    right. exists e, before, tagall_failure_reply. cbn. auto.
  - destruct (handleRemind_any message env) as [Hok|(e & before & Hr & Ht)]; [now left|].
    right. exists e, before, remind_failure_reply. cbn. auto.
  - destruct (handleRoast_any message env) as [[Hok|(e & before & Hr & Ht)] _]; [now left|].
    right. exists e, before, roast_failure_reply. cbn. auto.
  - now left.
Qed.

Lemma dispatcher_raises_only_apology_errors_witness :
  let outcome := run (onMessage bot_config 3 (incoming "$tagall!" (group 3) "0@c.us" []))
                     broken in
  fst outcome = Ok tt \/
  exists e before apology,
    In apology failure_replies /\
    fst outcome = Throw e /\
    snd outcome = before ++ [Failed (Reply apology) e].
Proof.
  apply (dispatcher_raises_only_apology_errors bot_config 3
           (incoming "$tagall!" (group 3) "0@c.us" []) broken).
  - cbn. lia.
  - vm_compute. lia.
Defined.

Local Open Scope string_scope.

Lemma lowerChar_space (c : ascii) : JS.isWhiteSpace (JS.lowerChar c) = JS.isWhiteSpace c.
Proof. destruct c as [[] [] [] [] [] [] [] []]; reflexivity. Qed.

Lemma lowerChar_blank (c : ascii) : JS.isWhiteSpace c = true -> JS.lowerChar c = c.
Proof. destruct c as [[] [] [] [] [] [] [] []]; (reflexivity || discriminate). Qed.

Lemma toLowerCase_app (a b : string) :
  JS.toLowerCase (a ++ b) = JS.toLowerCase a ++ JS.toLowerCase b.
Proof. induction a as [|c a IH]; cbn; [reflexivity | now rewrite IH]. Qed.

Lemma toLowerCase_blank (s : string) : blank s -> JS.toLowerCase s = s.
Proof.
  induction s as [|c s IH]; [reflexivity|]. intros [Hc Hs]. cbn.
  now rewrite (lowerChar_blank c Hc), IH.
Qed.

Lemma trimStart_lower (s : string) :
  JS.trimStart (JS.toLowerCase s) = JS.toLowerCase (JS.trimStart s).
Proof.
  induction s as [|c s IH]; [reflexivity|]. cbn [JS.toLowerCase JS.trimStart].
  rewrite lowerChar_space. now destruct (JS.isWhiteSpace c).
Qed.

Lemma trimEnd_lower (s : string) :
  JS.trimEnd (JS.toLowerCase s) = JS.toLowerCase (JS.trimEnd s).
Proof.
  induction s as [|c s IH]; [reflexivity|]. cbn [JS.toLowerCase JS.trimEnd].
  rewrite IH, lowerChar_space.
  destruct (JS.trimEnd s); cbn [JS.toLowerCase]; [now destruct (JS.isWhiteSpace c) | reflexivity].
Qed.

(** Trimming and lower-casing commute. *)
Lemma trim_lower (s : string) : JS.trim (JS.toLowerCase s) = JS.toLowerCase (JS.trim s).
Proof. unfold JS.trim. now rewrite trimEnd_lower, trimStart_lower. Qed.

Lemma trimEnd_blank (s : string) : blank s -> JS.trimEnd s = EmptyString.
Proof.
  induction s as [|c s IH]; [reflexivity|]. intros [Hc Hs]. cbn. now rewrite IH, Hc.
Qed.

Lemma trimEnd_pad_r (s b : string) : blank b -> JS.trimEnd (s ++ b) = JS.trimEnd s.
Proof.
  intros Hb. induction s as [|c s IH]; cbn [append JS.trimEnd].
  - now apply trimEnd_blank.
  - now rewrite IH.
Qed.

Lemma trim_pad_l (a s : string) : blank a -> JS.trim (a ++ s) = JS.trim s.
Proof.
  unfold JS.trim. induction a as [|c a IH]; [reflexivity|]. intros [Hc Ha].
  cbn [append JS.trimEnd]. specialize (IH Ha).
  destruct (JS.trimEnd (a ++ s)) as [|x t] eqn:Hend.
  - rewrite Hc. cbn in IH. exact IH.
  - cbn [JS.trimStart]. rewrite Hc. exact IH.
Qed.

(** [trim] ignores white space around a text. *)
Lemma trim_pad (a s b : string) : blank a -> blank b -> JS.trim (a ++ s ++ b) = JS.trim s.
Proof.
  intros Ha Hb. rewrite (trim_pad_l a _ Ha). unfold JS.trim. now rewrite trimEnd_pad_r.
Qed.

Lemma blank_digitFree (s : string) : blank s -> digitFree s.
Proof.
  induction s as [|c s IH]; [trivial|]. intros [Hc Hs]. split; [|now apply IH].
  destruct (JS.isDigit c) eqn:Hd; [|reflexivity].
  apply digit_not_space in Hd. congruence.
Qed.

Lemma dropWhile_blank (s : string) : blank s -> dropWhile JS.isWhiteSpace s = EmptyString.
Proof. induction s as [|c s IH]; [reflexivity|]. intros [Hc Hs]. cbn. now rewrite Hc, IH. Qed.

Lemma dropWhile_app_end (f : ascii -> bool) (a b : string) :
  dropWhile f a = EmptyString -> dropWhile f (a ++ b) = dropWhile f b.
Proof.
  induction a as [|x a IH]; [reflexivity|]. cbn [dropWhile append].
  destruct (f x); [exact IH | discriminate].
Qed.

Section Padding.
Variable letter : ascii.

Lemma firstUnit_pad_l (a s : string) : blank a -> firstUnit letter (a ++ s) = firstUnit letter s.
Proof.
  induction a as [|c a IH]; [reflexivity|]. intros [Hc Ha].
  change (String c a ++ s) with (String c (a ++ s)). cbn [firstUnit]. unfold unitHere.
  assert (Hd : JS.isDigit c = false).
  { destruct (JS.isDigit c) eqn:Hd; [|reflexivity]. apply digit_not_space in Hd. congruence. }
  rewrite Hd. now apply IH.
Qed.

Lemma unitHere_pad_r (s b : string) :
  blank b -> unitHere letter s = None -> unitHere letter (s ++ b) = None.
Proof.
  intros Hb. destruct s as [|c s].
  - intros _. cbn [append]. destruct b as [|x b]; [reflexivity|]. unfold unitHere.
    destruct Hb as [Hx _]. destruct (JS.isDigit x) eqn:Hd; [|reflexivity].
    apply digit_not_space in Hd. congruence.
  - unfold unitHere. change (String c s ++ b) with (String c (s ++ b)). cbv beta iota.
    destruct (JS.isDigit c) eqn:Hc; [|reflexivity].
    change (String c (s ++ b)) with (String c s ++ b).
    destruct (dropWhile JS.isDigit (String c s)) as [|x r] eqn:Hdigits.
    + intros _. rewrite (dropWhile_app_end _ _ b Hdigits).
      assert (Hnone : dropWhile JS.isWhiteSpace (dropWhile JS.isDigit b) = EmptyString).
      { apply dropWhile_twice. now apply dropWhile_blank. }
      now rewrite Hnone.
    + rewrite (dropWhile_app _ _ b _ _ Hdigits).
      change (String x (r ++ b)) with (String x r ++ b).
      destruct (dropWhile JS.isWhiteSpace (String x r)) as [|l u] eqn:Hspace.
      * intros _. rewrite (dropWhile_app_end _ _ b Hspace), (dropWhile_blank b Hb).
        reflexivity.
      * rewrite (dropWhile_app _ _ b _ _ Hspace). now destruct (Ascii.eqb letter l).
Qed.

Lemma firstUnit_pad_r (s b : string) : blank b -> firstUnit letter (s ++ b) = firstUnit letter s.
Proof.
  intros Hb. destruct (firstUnit letter s) as [digits|] eqn:Hfirst.
  - now apply firstUnit_app.
  - induction s as [|c s IH].
    + apply firstUnit_digitFree. now apply blank_digitFree.
    + cbn [firstUnit] in Hfirst.
      destruct (unitHere letter (String c s)) eqn:Hhere; [discriminate|].
      change (String c s ++ b) with (String c (s ++ b)). cbn [firstUnit].
      change (String c (s ++ b)) with (String c s ++ b).
      rewrite (unitHere_pad_r _ b Hb Hhere). now apply IH.
Qed.

Lemma firstUnit_pad (a s b : string) :
  blank a -> blank b -> firstUnit letter (a ++ s ++ b) = firstUnit letter s.
Proof. intros Ha Hb. now rewrite firstUnit_pad_l, firstUnit_pad_r. Qed.
End Padding.

Lemma lower_pad (a s b : string) :
  blank a -> blank b -> JS.toLowerCase (a ++ s ++ b) = a ++ JS.toLowerCase s ++ b.
Proof.
  intros Ha Hb. now rewrite !toLowerCase_app, (toLowerCase_blank a Ha), (toLowerCase_blank b Hb).
Qed.

Local Open Scope list_scope.

(** X8. The bot reads the text of a message only up to letter case and
    surrounding white space: two messages that differ in nothing else
    are handled in the same way, command and duration included. *)
Theorem body_up_to_case_and_padding
        (cfg : Config) (fuel : nat) (message : Message) (env : Env)
        (a1 b1 c1 a2 b2 c2 : string) :
  blank a1 -> blank c1 -> blank a2 -> blank c2 ->
  JS.toLowerCase b1 = JS.toLowerCase b2 ->
  run (onMessage cfg fuel (with_body message (a1 ++ b1 ++ c1)%string)) env =
  run (onMessage cfg fuel (with_body message (a2 ++ b2 ++ c2)%string)) env.
Proof.
  intros Ha1 Hc1 Ha2 Hc2 Hlower.
  unfold onMessage. cbn [body with_body].
  rewrite !trim_pad by assumption. rewrite <- !trim_lower, Hlower.
  destruct (JS.startsWith _ "$tagall!"); [reflexivity|].
  destruct (JS.startsWith _ "$remind"); [|reflexivity].
  unfold handleRemind. cbn [body with_body contact_of mentions_of chat_of].
  unfold hoursOf, minutesOf, secondsOf, hoursRegex, minutesRegex, secondsRegex.
  rewrite !timePart_unit by (split; reflexivity).
  rewrite !lower_pad, !firstUnit_pad, Hlower by assumption.
  reflexivity.
Qed.

Lemma body_up_to_case_and_padding_witness :
  let message := incoming EmptyString (group 3) "2@c.us" [] in
  run (onMessage bot_config 3
         (with_body message ("  " ++ "$REMIND in 2 Hours" ++ nl)%string)) quiet =
  run (onMessage bot_config 3
         (with_body message (EmptyString ++ "$remind IN 2 hours" ++ EmptyString)%string)) quiet.
Proof.
  cbv zeta.
  apply (body_up_to_case_and_padding bot_config 3 (incoming EmptyString (group 3) "2@c.us" [])
           quiet "  " "$REMIND in 2 Hours" nl EmptyString "$remind IN 2 hours" EmptyString);
    cbn; auto.
Defined.

Local Open Scope list_scope.




Local Open Scope string_scope.

Lemma split_oneLine (l : string) : oneLine l -> JS.split (ascii_of_nat 10) l = [l].
Proof.
  induction l as [|c l IH]; [reflexivity|]. intros [Hc Hl]. cbn [JS.split].
  destruct (Ascii.eqb_spec c (ascii_of_nat 10)); [contradiction|]. now rewrite IH.
Qed.

Lemma split_line (l rest : string) :
  oneLine l ->
  JS.split (ascii_of_nat 10) (l ++ nl ++ rest) = l :: JS.split (ascii_of_nat 10) rest.
Proof.
  induction l as [|c l IH]; [reflexivity|]. intros [Hc Hl].
  change (String c l ++ nl ++ rest) with (String c (l ++ nl ++ rest)). cbn [JS.split].
  destruct (Ascii.eqb_spec c (ascii_of_nat 10)); [contradiction|]. now rewrite IH.
Qed.

Local Open Scope list_scope.

Lemma nonBlankLines_line (l rest : string) :
  roastLine l -> nonBlankLines (l ++ nl ++ rest)%string = l :: nonBlankLines rest.
Proof.
  intros [Hone Hfull]. unfold nonBlankLines. rewrite split_line by exact Hone.
  cbn [filter]. apply String.eqb_neq in Hfull. now rewrite Hfull.
Qed.

Lemma nonBlankLines_last (l : string) : roastLine l -> nonBlankLines l = [l].
Proof.
  intros [Hone Hfull]. unfold nonBlankLines. rewrite split_oneLine by exact Hone.
  cbn [filter]. apply String.eqb_neq in Hfull. now rewrite Hfull.
Qed.

(** X10. A corpus written one roast per line, with or without a final
    line feed, is read back as exactly those roasts, in order. *)
Theorem corpus_round_trip (lines : list string) :
  Forall roastLine lines ->
  nonBlankLines (JS.join nl lines) = lines /\
  nonBlankLines (JS.join nl lines ++ nl)%string = lines.
Proof.
  induction 1 as [|l lines Hl Hlines [IH1 IH2]]; [split; reflexivity|].
  destruct lines as [|l' lines].
  - cbn [JS.join]. split; [now apply nonBlankLines_last|].
    rewrite <- (append_empty_r (l ++ nl)), append_assoc.
    now rewrite nonBlankLines_line.
  - change (JS.join nl (l :: l' :: lines)) with (l ++ nl ++ JS.join nl (l' :: lines))%string.
    split.
    + now rewrite nonBlankLines_line, IH1.
    + rewrite !append_assoc. now rewrite nonBlankLines_line, IH2.
Qed.

Lemma corpus_round_trip_witness :
  nonBlankLines (JS.join nl ["You are a typo."; "You peaked in beta."])
  = ["You are a typo."; "You peaked in beta."] /\
  nonBlankLines (JS.join nl ["You are a typo."; "You peaked in beta."] ++ nl)%string
  = ["You are a typo."; "You peaked in beta."].
Proof.
  apply (corpus_round_trip ["You are a typo."; "You peaked in beta."]).
  repeat constructor; cbn; try discriminate.
Defined.

(** X11. Every roast of the corpus can come out: for each line of
    the file that is not blank there is a double at least 0 and below
    1 which, returned by [Math.random()], makes the selector answer
    that line. The file has fewer than 2^32 lines, as every array. *)
Theorem every_roast_reachable (content line : string) (h : trace) :
  let lines := JS.split (ascii_of_nat 10) content in
  In line lines -> JS.trim line <> EmptyString ->
  (N.of_nat (length lines) < 2 ^ 32)%N ->
  exists r,
    JS.isFraction r = true /\
    forall env,
      roasts_txt env = content -> Math_random env = r ->
      raises env h (ReadFileSync roasts_path) = None ->
      getRandomRoast env h = (Ok (Some line), h ++ [Done (ReadFileSync roasts_path)]).
Proof.
  cbv zeta. intros Hline Hfull Hsize.
  assert (Hin : In line (nonBlankLines content)) by now apply nonBlankLines_In.
  apply In_nth_error in Hin. destruct Hin as (k & Hk).
  assert (Hlt : k < length (nonBlankLines content)) by (apply nth_error_Some; congruence).
  assert (Hle : length (nonBlankLines content) <= length (JS.split (ascii_of_nat 10) content))
    by apply filter_length_le.
  set (n := length (nonBlankLines content)) in *.
  destruct (floorOfProduct_reaches (N.of_nat k) (N.of_nat n)) as [Hr Hfloor]; [lia | lia |].
  eexists. split; [exact Hr|].
  intros env Hcontent Hrandom Hread.
  unfold getRandomRoast, try_catch, bind, readFileSync, perform, random, ret.
  rewrite Hread. cbv beta iota zeta. rewrite Hcontent. fold n.
  destruct (Nat.eqb_spec n 0) as [|_]; [lia|]. rewrite Hrandom, Hfloor.
  unfold at_index. now rewrite Nat2N.id, Hk.
Qed.

Lemma every_roast_reachable_witness :
  exists r,
    JS.isFraction r = true /\
    forall env,
      roasts_txt env = roasts_txt three_roasts -> Math_random env = r ->
      raises env [] (ReadFileSync roasts_path) = None ->
      getRandomRoast env []
      = (Ok (Some "Even your cache misses you."%string), [] ++ [Done (ReadFileSync roasts_path)]).
Proof.
  apply (every_roast_reachable (roasts_txt three_roasts) "Even your cache misses you." []).
  - do 3 right. left. reflexivity.
  - vm_compute. discriminate.
  - vm_compute. reflexivity.
Defined.

Local Open Scope string_scope.

Section UnitLetter.
Variable letter : ascii.
Hypothesis Hletter : unitLetter letter.

Lemma dropWhile_digits (d rest : string) :
  digits d -> dropWhile JS.isDigit (d ++ rest) = dropWhile JS.isDigit rest.
Proof.
  induction d as [|c d IH]; [reflexivity|]. intros [Hc Hd]. cbn. now rewrite Hc, IH.
Qed.

Lemma takeWhile_digits (d rest : string) :
  digits d -> takeWhile JS.isDigit (d ++ rest) = d ++ takeWhile JS.isDigit rest.
Proof.
  induction d as [|c d IH]; [reflexivity|]. intros [Hc Hd]. cbn. now rewrite Hc, IH.
Qed.

Lemma dropWhile_blank_app (w rest : string) :
  blank w -> dropWhile JS.isWhiteSpace (w ++ rest) = dropWhile JS.isWhiteSpace rest.
Proof.
  induction w as [|c w IH]; [reflexivity|]. intros [Hc Hw]. cbn. now rewrite Hc, IH.
Qed.

Lemma firstUnit_skip (pre s : string) :
  digitFree pre -> firstUnit letter (pre ++ s) = firstUnit letter s.
Proof.
  induction pre as [|c pre IH]; [reflexivity|]. intros [Hc Hpre].
  change (String c pre ++ s) with (String c (pre ++ s)). cbn [firstUnit]. unfold unitHere.
  rewrite Hc. now apply IH.
Qed.

(** A number followed by a word that begins with the unit letter is a
    unit phrase, whatever the rest of the word is. *)
Lemma unitHere_phrase (c : ascii) (d w rest : string) :
  JS.isDigit c = true -> digits d -> blank w ->
  unitHere letter (String c d ++ w ++ String letter rest) = Some (String c d).
Proof.
  intros Hc Hd Hw. destruct Hletter as [Hnd Hns].
  assert (Hstop : dropWhile JS.isDigit (w ++ String letter rest) = w ++ String letter rest).
  { destruct w as [|x w]; cbn [append dropWhile]; [now rewrite Hnd|].
    destruct Hw as [Hx _]. destruct (JS.isDigit x) eqn:Hdx; [|reflexivity].
    apply digit_not_space in Hdx. congruence. }
  assert (Htake : takeWhile JS.isDigit (w ++ String letter rest) = EmptyString).
  { destruct w as [|x w]; cbn [append takeWhile]; [now rewrite Hnd|].
    destruct Hw as [Hx _]. destruct (JS.isDigit x) eqn:Hdx; [|reflexivity].
    apply digit_not_space in Hdx. congruence. }
  unfold unitHere. change (String c d ++ w ++ String letter rest)
    with (String c (d ++ w ++ String letter rest)). cbv beta iota.
  rewrite Hc. cbn [dropWhile takeWhile]. rewrite Hc.
  rewrite (dropWhile_digits d _ Hd), (takeWhile_digits d _ Hd), Hstop, Htake.
  rewrite (dropWhile_blank_app w _ Hw). cbn [dropWhile]. rewrite Hns, Ascii.eqb_refl.
  now rewrite append_empty_r.
Qed.

Lemma firstUnit_phrase (c : ascii) (d w rest : string) :
  JS.isDigit c = true -> digits d -> blank w ->
  firstUnit letter (String c d ++ w ++ String letter rest) = Some (String c d).
Proof.
  intros Hc Hd Hw.
  change (String c d ++ w ++ String letter rest)
    with (String c (d ++ w ++ String letter rest)).
  cbn [firstUnit].
  change (String c (d ++ w ++ String letter rest))
    with (String c d ++ w ++ String letter rest).
  now rewrite unitHere_phrase.
Qed.
End UnitLetter.

(** X12. Only the first letter of a unit word is looked at: a number
    followed by any word in h, m or s counts as hours, minutes or
    seconds, when no digit comes before it. *)
Theorem unit_word_first_letter_decides (pre d w rest : string) (c : ascii) :
  digitFree pre -> JS.isDigit c = true -> digits d -> blank w ->
  hoursOf (pre ++ String c d ++ w ++ String "h" rest) = JS.parseInt (String c d) /\
  minutesOf (pre ++ String c d ++ w ++ String "m" rest) = JS.parseInt (String c d) /\
  secondsOf (pre ++ String c d ++ w ++ String "s" rest) = JS.parseInt (String c d).
Proof.
  intros Hpre Hc Hd Hw.
  rewrite hoursOf_spec, minutesOf_spec, secondsOf_spec.
  rewrite (firstUnit_skip "h"), (firstUnit_skip "m"), (firstUnit_skip "s") by exact Hpre.
  rewrite (firstUnit_phrase "h" hours_letter), (firstUnit_phrase "m" minutes_letter),
    (firstUnit_phrase "s" seconds_letter) by assumption.
  repeat split.
Qed.

Lemma unit_word_first_letter_decides_witness :
  minutesOf ("remind me in " ++ "45" ++ " " ++ "monkeys")%string = JS.parseInt "45".
Proof.
  apply (unit_word_first_letter_decides "remind me in " "5" " " "onkeys" "4");
    vm_compute; repeat split.
Defined.

Local Open Scope list_scope.

Lemma rate_limited_quiet (cfg : Config) (t : trace) :
  pacing t = [] -> sent t = [] -> rate_limited cfg t.
Proof. intros Hp Hs. exists []. rewrite Hp, Hs. split; [reflexivity | now left]. Qed.

Lemma rate_limited_same (cfg : Config) (t t' : trace) :
  pacing t' = pacing t -> sent t' = sent t -> rate_limited cfg t -> rate_limited cfg t'.
Proof. intros Hp Hs (stop & Hpace & Hstop). exists stop. now rewrite Hp, Hs. Qed.

Lemma tagLoop_rate_limited (cfg : Config) (chat : Chat) (ps : list Participant) (env : Env) :
  forall fuel i h,
  exists r t, tagLoop cfg chat ps fuel i env h = (r, h ++ t) /\ rate_limited cfg t.
Proof.
  induction fuel as [|fuel IH]; intros i h.
  - exists (if (i <? length ps)%nat then Diverge else Ok tt), [].
    cbn [tagLoop]. rewrite app_nil_r.
    split; [now destruct (i <? length ps)%nat | now apply rate_limited_quiet].
  - destruct (Nat.lt_ge_cases i (length ps)) as [Hi|Hi].
    + rewrite tagLoop_step by exact Hi.
      set (m := batchMessage (JS.slice ps i (i + TAG_BATCH_SIZE cfg))).
      destruct (raises env h (SendMessage (fst m) (snd m))) as [e|].
      * exists (Throw e), [Failed (SendMessage (fst m) (snd m)) e].
        split; [reflexivity|]. exists [Failed (SendMessage (fst m) (snd m)) e].
        split; [reflexivity|]. right. now exists (fst m), (snd m), e.
      * match goal with
        | |- context [tagLoop cfg chat ps fuel ?j env (h ++ ?evs)] =>
            destruct (IH j (h ++ evs)) as (r & t & -> & stop & Hpace & Hstop);
            exists r, (evs ++ t)
        end.
        split; [now rewrite <- app_assoc|]. exists stop.
        rewrite pacing_app, sent_app, Hpace.
        split; [destruct m; reflexivity | exact Hstop].
    + exists (Ok tt), []. rewrite tagLoop_done, app_nil_r by lia.
      split; [reflexivity | now apply rate_limited_quiet].
Qed.

(** X13. Whatever the library does, and for every batch size and fuel, a
    tag-all invocation respects its rate limit: every message it
    delivers is followed by the configured pause before the next send
    is issued, and only a send that raised is left without one. *)
Theorem tagall_never_exceeds_rate (cfg : Config) (fuel : nat) (message : Message) (env : Env) :
  rate_limited cfg (snd (run (handleTagAll cfg fuel message) env)).
Proof.
  unfold handleTagAll. unfold_handler.
  do 2 (next_call; cbv beta iota;
        [repeat first [next_call | progress cbv beta iota];
         now apply rate_limited_quiet|]).
  destruct (isGroup (chat_of message)); cbn [negb];
    [destruct (isUserAuthorized cfg message (chat_of message)); cbn [negb]|];
    try (repeat first [next_call | progress cbv beta iota]; now apply rate_limited_quiet).
  match goal with
  | |- context [tagLoop cfg ?chat ?ps fuel 0 env ?h] =>
      destruct (tagLoop_rate_limited cfg chat ps env fuel 0 h) as (r & t & -> & Hrate)
  end.
  destruct r as [[]|e|]; cbv beta iota; repeat first [next_call | progress cbv beta iota];
    cbn [snd];
    (apply (rate_limited_same cfg t); [| | exact Hrate];
     rewrite ?pacing_app, ?sent_app; observe; now rewrite ?app_nil_r).
Qed.


Local Open Scope list_scope.

Lemma logged_lines_app (a b : trace) :
  logged_lines (a ++ b) = logged_lines a ++ logged_lines b.
Proof. apply flat_map_app. Qed.

Lemma tagLoop_progress (cfg : Config) (chat : Chat) (ps : list Participant) (env : Env) :
  reliable env -> 0 < TAG_BATCH_SIZE cfg ->
  forall fuel j h, length ps - j * TAG_BATCH_SIZE cfg <= fuel ->
  exists t,
    tagLoop cfg chat ps fuel (j * TAG_BATCH_SIZE cfg) env h = (Ok tt, h ++ t) /\
    logged_lines t =
    map (progressLine (ceil_div (length ps) (TAG_BATCH_SIZE cfg)))
        (seq (j + 1) (ceil_div (length ps - j * TAG_BATCH_SIZE cfg) (TAG_BATCH_SIZE cfg))).
Proof.
  intros Hrel Hsize. induction fuel as [|fuel IH]; intros j h Hfuel.
  - exists []. rewrite tagLoop_done, app_nil_r by lia. split; [reflexivity|].
    replace (length ps - j * TAG_BATCH_SIZE cfg) with 0 by lia.
    unfold ceil_div at 2. rewrite Nat.div_small by lia. reflexivity.
  - destruct (Nat.lt_ge_cases (j * TAG_BATCH_SIZE cfg) (length ps)) as [Hi|Hi].
    + rewrite tagLoop_step by exact Hi. rewrite Hrel.
      replace (j * TAG_BATCH_SIZE cfg + TAG_BATCH_SIZE cfg) with (S j * TAG_BATCH_SIZE cfg)
        by lia.
      match goal with
      | |- context [tagLoop cfg chat ps fuel _ env (h ++ ?evs)] =>
          destruct (IH (S j) (h ++ evs)) as (t & -> & Hlines); [lia|];
          exists (evs ++ t)
      end.
      split; [now rewrite <- app_assoc|].
      rewrite logged_lines_app, Hlines.
      rewrite (ceil_div_step (length ps - j * TAG_BATCH_SIZE cfg)) by lia.
      cbn [seq map logged_lines flat_map app]. f_equal.
      * unfold progressLine, show_batch_number, show_batch_count, ceil_div.
        destruct (Nat.eqb_spec (TAG_BATCH_SIZE cfg) 0) as [|_]; [lia|].
        rewrite Nat.div_mul by lia. reflexivity.
      * replace (S j + 1) with (S (j + 1)) by lia.
        replace (length ps - S j * TAG_BATCH_SIZE cfg)
          with (length ps - j * TAG_BATCH_SIZE cfg - TAG_BATCH_SIZE cfg) by (cbn; lia).
        reflexivity.
    + exists []. rewrite tagLoop_done, app_nil_r by lia. split; [reflexivity|].
      replace (length ps - j * TAG_BATCH_SIZE cfg) with 0 by lia.
      unfold ceil_div at 2. rewrite Nat.div_small by lia. reflexivity.
Qed.

(** X14. On the normal path the console shows the command, the
    announcement, one progress line per batch, numbered 1 to ceil(N/B)
    out of ceil(N/B), and the closing line. *)
Theorem tagall_console_output (cfg : Config) (fuel : nat) (message : Message) (env : Env) :
  let chat := chat_of message in
  let n := ceil_div (length (participants chat)) (TAG_BATCH_SIZE cfg) in
  0 < TAG_BATCH_SIZE cfg ->
  isGroup chat = true ->
  isUserAuthorized cfg message chat = true ->
  reliable env ->
  length (participants chat) <= fuel ->
  logged_lines (snd (run (handleTagAll cfg fuel message) env)) =
  [("[CMD] Received $tagall! from " ++ dq ++ pushname (contact_of message) ++ dq
    ++ " in chat " ++ dq ++ name chat ++ dq ++ ".")%string;
   ("[INFO] Tagging " ++ JS.show (length (participants chat))
    ++ " participants in batches of " ++ JS.show (TAG_BATCH_SIZE cfg) ++ "...")%string]
  ++ map (progressLine n) (seq 1 n)
  ++ [("[SUCCESS] Finished tagging all participants in chat "
       ++ dq ++ name chat ++ dq ++ ".")%string].
Proof.
  cbv zeta. intros Hsize Hgroup Hauth Hrel Hfuel.
  unfold handleTagAll. unfold_handler.
  rewrite !Hrel. cbv beta iota. rewrite Hgroup, Hauth. cbn [negb].
  match goal with
  | |- context [tagLoop cfg ?chat ?ps fuel 0 env ?h0] =>
      destruct (tagLoop_progress cfg chat ps env Hrel Hsize fuel 0 h0)
        as (t & Hrun & Hlines); [cbn; lia|]
  end.
  cbn [Nat.mul Nat.add] in Hrun, Hlines. rewrite Hrun. cbn [snd].
  rewrite !logged_lines_app, Hlines, Nat.sub_0_r. reflexivity.
Qed.

Lemma tagall_console_output_witness :
  let message := incoming "$tagall!" (group 120) "0@c.us" [] in
  logged_lines (snd (run (handleTagAll bot_config 120 message) quiet)) =
  [("[CMD] Received $tagall! from " ++ dq ++ pushname (contact_of message) ++ dq
    ++ " in chat " ++ dq ++ name (chat_of message) ++ dq ++ ".")%string;
   ("[INFO] Tagging " ++ JS.show (length (participants (chat_of message)))
    ++ " participants in batches of " ++ JS.show (TAG_BATCH_SIZE bot_config) ++ "...")%string]
  ++ map (progressLine (ceil_div (length (participants (chat_of message)))
                                 (TAG_BATCH_SIZE bot_config)))
         (seq 1 (ceil_div (length (participants (chat_of message)))
                          (TAG_BATCH_SIZE bot_config)))
  ++ [("[SUCCESS] Finished tagging all participants in chat "
       ++ dq ++ name (chat_of message) ++ dq ++ ".")%string].
Proof.
  cbv zeta.
  apply (tagall_console_output bot_config 120
           (incoming "$tagall!" (group 120) "0@c.us" []) quiet).
  - cbn. lia.
  - reflexivity.
  - reflexivity.
  - exact reliable_quiet.
  - vm_compute. lia.
Defined.

Local Open Scope list_scope.

Lemma find_filter {A : Type} (f : A -> bool) (l : list A) :
  JS.find f l = hd_error (filter f l).
Proof.
  unfold JS.find. induction l as [|x l IH]; [reflexivity|]. cbn [find filter].
  now destruct (f x).
Qed.

(** X15. The check looks at the configuration only to see whether the
    sender is listed, at the message only for its sender, and at the
    chat only for its kind and the entries that carry the sender's
    identifier: who else is listed and what the other participants are
    never matters. *)
Theorem authorization_depends_on_own_entries
        (cfg cfg' : Config) (message message' : Message) (chat chat' : Chat) :
  let own := fun p => String.eqb (_serialized (id p)) (senderOf message) in
  (In (senderOf message) (SUPER_ADMINS cfg) <-> In (senderOf message) (SUPER_ADMINS cfg')) ->
  senderOf message = senderOf message' ->
  isGroup chat = isGroup chat' ->
  filter own (participants chat) = filter own (participants chat') ->
  isUserAuthorized cfg message chat = isUserAuthorized cfg' message' chat'.
Proof.
  cbv zeta. intros Hlisted Hsender Hkind Hown. unfold isUserAuthorized.
  fold (senderOf message) (senderOf message'). rewrite <- Hsender, <- Hkind.
  assert (Hinc : JS.includes (SUPER_ADMINS cfg) (senderOf message)
                 = JS.includes (SUPER_ADMINS cfg') (senderOf message)).
  { destruct (JS.includes (SUPER_ADMINS cfg') (senderOf message)) eqn:H'.
    - apply includes_In. apply Hlisted. now apply includes_In.
    - destruct (JS.includes (SUPER_ADMINS cfg) (senderOf message)) eqn:H; [|reflexivity].
      apply includes_In, Hlisted, includes_In in H. congruence. }
  rewrite Hinc, !find_filter, Hown. reflexivity.
Qed.

(** Another allow-list that does not name the sender either, another
    text, and a group without the other members: the same answer. *)
Lemma authorization_depends_on_own_entries_witness :
  isUserAuthorized bot_config (incoming "$tagall!" (group 3) "0@c.us" []) (group 3) =
  isUserAuthorized other_config (incoming "$roast" private_chat "0@c.us" [someone])
    {| isGroup := true; name := "Other"; participants := [member 0] |}.
Proof.
  apply (authorization_depends_on_own_entries bot_config other_config
           (incoming "$tagall!" (group 3) "0@c.us" [])
           (incoming "$roast" private_chat "0@c.us" [someone])).
  - split; intros [Hsame|[]]; discriminate.
  - reflexivity.
  - reflexivity.
  - reflexivity.
Defined.
